(** * d2-mcp-server: a shallow embedding of [src/index.ts]

    The adapter's own logic is small: a race-based timeout guard, a textual
    post-processing filter, a process-spawn bridge and three tool handlers
    that compose them.  The D2 compiler, the spawned formatter and the
    JavaScript runtime's built-ins are collaborators; they enter the
    development as parameters.

    Strings are JavaScript strings: sequences of UTF-16 code units, so that
    [length] is [String.prototype.length] and the character classes of the
    regular expressions range over code units, as they do without the [u]
    flag. *)

From Stdlib Require Import Strings.String Strings.Ascii.
From Stdlib Require Import NArith ZArith Bool Lia Arith List.
Import ListNotations.

Set Implicit Arguments.

(* ------------------------------------------------------------------ *)
(** ** JavaScript strings *)

Module Js.

Definition code_unit := N.
Definition jsstring := list code_unit.

(** An ASCII literal of the source, as code units. *)
Definition lit (s : string) : jsstring :=
  map N_of_ascii (list_ascii_of_string s).

Definition unit_eqb (a b : code_unit) : bool := N.eqb a b.

Fixpoint str_eqb (a b : jsstring) : bool :=
  match a, b with
  | [], [] => true
  | x :: a', y :: b' => unit_eqb x y && str_eqb a' b'
  | _, _ => false
  end.

(** [s.length] *)
Definition js_length (s : jsstring) : N := N.of_nat (length s).

(** A string is falsy exactly when it is empty. *)
Definition truthy (s : jsstring) : bool :=
  match s with [] => false | _ => true end.

(** [a || b] on strings. *)
Definition js_or (a b : jsstring) : jsstring :=
  if truthy a then a else b.

(** [flag] in a condition, for an optional boolean: [undefined] is falsy. *)
Definition truthy_flag (b : option bool) : bool :=
  match b with Some true => true | _ => false end.

(** ECMAScript WhiteSpace and LineTerminator code points: the class [\s] of
    a regular expression and the characters [trim] removes. *)
Definition is_space (c : code_unit) : bool :=
  ((9 <=? c) && (c <=? 13)        (* \t \n \v \f \r *)
   || (c =? 32) || (c =? 160) || (c =? 5760)
   || ((8192 <=? c) && (c <=? 8202))
   || (c =? 8232) || (c =? 8233) || (c =? 8239) || (c =? 8287)
   || (c =? 12288) || (c =? 65279))%N.

Fixpoint trimStart (s : jsstring) : jsstring :=
  match s with
  | c :: s' => if is_space c then trimStart s' else s
  | [] => []
  end.

Definition trimEnd (s : jsstring) : jsstring := rev (trimStart (rev s)).

(** [s.trim()] *)
Definition trim (s : jsstring) : jsstring := trimEnd (trimStart s).

(** [hay.includes(needle)] *)
Fixpoint starts_with (needle hay : jsstring) : bool :=
  match needle, hay with
  | [], _ => true
  | x :: n', y :: h' => unit_eqb x y && starts_with n' h'
  | _ :: _, [] => false
  end.

Fixpoint includes (hay needle : jsstring) : bool :=
  starts_with needle hay ||
  match hay with
  | [] => false
  | _ :: h' => includes h' needle
  end.

(** Decimal digits of a non-negative integer, as [String(n)] and a template
    literal print an integer-valued Number below 10^21.  The fuel is the
    bit length, which is never less than the number of decimal digits. *)
Fixpoint digits_from (fuel : nat) (n : N) (acc : jsstring) : jsstring :=
  match fuel with
  | O => acc
  | S f =>
      let acc' := (48 + n mod 10)%N :: acc in
      if (n / 10 =? 0)%N then acc' else digits_from f (n / 10) acc'
  end.

Definition number_toString (n : N) : jsstring :=
  digits_from (S (N.to_nat (N.log2 n))) n [].

(** Reading decimal digits back. *)
Definition digits_value (s : jsstring) : N :=
  fold_left (fun acc d => (10 * acc + (d - 48))%N) s 0%N.

End Js.

Import Js.

(* ------------------------------------------------------------------ *)
(** ** Regular expressions, as far as the source uses them

    Both patterns of [stripFontFaces] are sequences of single-character
    atoms and greedy repetitions of a character class.  [match_len] is the
    backtracking matcher anchored at the head of the subject; it yields the
    length of the match. *)

Module Regex.

Inductive atom : Type :=
| One  (p : code_unit -> bool)    (* a literal or a class: one code unit *)
| Many (p : code_unit -> bool).   (* class*, greedy *)

Definition pattern := list atom.

Fixpoint match_len (pat : pattern) (s : jsstring) : option nat :=
  match pat with
  | [] => Some O
  | One p :: pat' =>
      match s with
      | c :: s' => if p c then option_map S (match_len pat' s') else None
      | [] => None
      end
  | Many p :: pat' =>
      (fix star (s : jsstring) : option nat :=
         match s with
         | c :: s' =>
             if p c then
               match star s' with
               | Some n => Some (S n)
               | None => match_len pat' s
               end
             else match_len pat' s
         | [] => match_len pat' s
         end) s
  end.

(** [subject.replace(/pat/g, repl)] for a replacement without [$]: the
    leftmost match is replaced, the scan resumes behind it, and an empty
    match steps over one code unit.  [skip] counts the code units of the
    current match that are still to be dropped. *)
Fixpoint replace_from (pat : pattern) (repl : jsstring)
         (s : jsstring) (skip : nat) : jsstring :=
  match s with
  | [] =>
      match skip, match_len pat [] with
      | O, Some _ => repl
      | _, _ => []
      end
  | c :: s' =>
      match skip with
      | S k => replace_from pat repl s' k
      | O =>
          match match_len pat s with
          | Some O => repl ++ c :: replace_from pat repl s' O
          | Some (S n) => repl ++ replace_from pat repl s' n
          | None => c :: replace_from pat repl s' O
          end
      end
  end.

Definition replace_all (pat : pattern) (repl s : jsstring) : jsstring :=
  replace_from pat repl s O.

(** [/pat/.test(s)]: is there a match anywhere in [s]? *)
Fixpoint has_match (pat : pattern) (s : jsstring) : bool :=
  match match_len pat s with
  | Some _ => true
  | None => match s with [] => false | _ :: s' => has_match pat s' end
  end.

(** The least number of code units a match consumes. *)
Fixpoint min_len (pat : pattern) : nat :=
  match pat with
  | [] => O
  | One _ :: pat' => S (min_len pat')
  | Many _ :: pat' => min_len pat'
  end.

Definition literal (s : jsstring) : pattern :=
  map (fun c => One (unit_eqb c)) s.

End Regex.

Import Regex.

(* ------------------------------------------------------------------ *)
(** ** Output post-processor: [stripFontFaces] *)

Definition NL : code_unit := 10%N.
Definition LBRACE : code_unit := 123%N.
Definition RBRACE : code_unit := 125%N.

Definition not_brace (c : code_unit) : bool :=
  negb (unit_eqb c LBRACE || unit_eqb c RBRACE).

(** [/@font-face\s*\{[^{}]*\}/] *)
Definition font_face_re : pattern :=
  literal (lit "@font-face")
    ++ [Many is_space; One (unit_eqb LBRACE); Many not_brace; One (unit_eqb RBRACE)].

(** [/\n{3,}/] *)
Definition newlines3_re : pattern :=
  [One (unit_eqb NL); One (unit_eqb NL); One (unit_eqb NL); Many (unit_eqb NL)].

Definition remove_font_faces (svg : jsstring) : jsstring :=
  replace_all font_face_re [] svg.

Definition collapse_newlines (s : jsstring) : jsstring :=
  replace_all newlines3_re [NL; NL] s.

(** [svg.replace(/@font-face\s*\{[^{}]*\}/g, "").replace(/\n{3,}/g, "\n\n")] *)
Definition stripFontFaces (svg : jsstring) : jsstring :=
  collapse_newlines (remove_font_faces svg).

Definition has_font_face (s : jsstring) : bool := has_match font_face_re s.

(** The number of newlines [s] begins with. *)
Fixpoint nl_run (s : jsstring) : nat :=
  match s with
  | c :: s' => if unit_eqb NL c then S (nl_run s') else O
  | [] => O
  end.

(* ------------------------------------------------------------------ *)
(** ** Thrown values *)

(** An [Error] object, with the [code] a [NodeJS.ErrnoException] carries. *)
Record ErrorObject : Type := {
  message : jsstring;
  code : option jsstring
}.

(** Anything can be thrown; of a value that is not an [Error] the handlers
    only ever use [String(value)]. *)
Inductive thrown : Type :=
| ThrownError (e : ErrorObject)
| ThrownValue (text : jsstring).

(** [new Error(msg)] *)
Definition new_Error (msg : jsstring) : thrown :=
  ThrownError {| message := msg; code := None |}.

(** [error instanceof Error ? error.message : String(error)] *)
Definition error_text (error : thrown) : jsstring :=
  match error with
  | ThrownError e => message e
  | ThrownValue text => text
  end.

(* ------------------------------------------------------------------ *)
(** ** The event loop: promises, timers and [await]

    Time is counted in milliseconds.  A collaborator's operation is given by
    its [behaviour]: after how long it settles and how, or [None] when it
    never settles.  A [promise] is the same with an absolute settle time.
    The loop keeps the armed timers; a timer leaves the list when its
    callback runs, and by no other way, since the source never calls
    [clearTimeout]. *)

Inductive settled (T : Type) : Type :=
| Resolves (v : T)
| Rejects (e : thrown).

Arguments Rejects {T} e.

Definition behaviour (T : Type) := option (N * settled T).
Definition promise (T : Type) := option (N * settled T).

(** A timer whose callback is [() => reject(rejection)]. *)
Record timer : Type := {
  due : N;
  rejection : thrown
}.

Section EventLoop.

Variable call : Type.

Inductive event : Type :=
| Called (c : call)                 (* a collaborator's method was invoked *)
| TimerSet (ms : N) (t : timer)     (* setTimeout(callback, ms) *)
| TimerFired (t : timer).           (* the callback ran *)

Record loop : Type := {
  clock : N;
  armed : list timer;
  trace : list event
}.

(** Timers are kept in the order they fire: by due time, and first armed
    first among equals. *)
Fixpoint arm (t : timer) (l : list timer) : list timer :=
  match l with
  | [] => [t]
  | u :: l' => if (due t <? due u)%N then t :: l else u :: arm t l'
  end.

Definition is_due (now : N) (t : timer) : bool := (due t <=? now)%N.

(** Let time pass until [t]: every timer due by then runs its callback. *)
Definition advance (t : N) (w : loop) : loop :=
  let now := N.max t (clock w) in
  {| clock := now;
     armed := filter (fun u => negb (is_due now u)) (armed w);
     trace := trace w ++ map TimerFired (filter (is_due now) (armed w)) |}.

(** Invoking an asynchronous method of a collaborator starts the operation
    and hands back its promise. *)
Definition start (T : Type) (c : call) (b : behaviour T) (w : loop)
  : promise T * loop :=
  (option_map (fun dr => ((clock w + fst dr)%N, snd dr)) b,
   {| clock := clock w; armed := armed w; trace := trace w ++ [Called c] |}).

(** [new Promise((_, reject) => setTimeout(() => reject(e), ms))], for a
    delay in setTimeout's range, 1 to [TIMEOUT_MAX] (2^31-1), as the
    program's 30,000 is.  (Outside that range the runtime waits 1 ms
    instead; the statements on a general [ms] carry the range as a
    hypothesis.) *)
Definition reject_after (T : Type) (ms : N) (e : thrown) (w : loop)
  : promise T * loop :=
  let t := {| due := (clock w + ms)%N; rejection := e |} in
  (Some (due t, Rejects e),
   {| clock := clock w; armed := arm t (armed w);
      trace := trace w ++ [TimerSet ms t] |}).

(** [Promise.race([p, q])]: the first to settle wins.  When [q] is a timer
    and both fall on the same millisecond the timer is taken to win (the
    loop runs its timers before its I/O callbacks); none of the claims
    below depends on that choice. *)
Definition race (T : Type) (p q : promise T) : promise T :=
  match p, q with
  | Some (tp, _), Some (tq, _) => if (tp <? tq)%N then p else q
  | Some _, None => p
  | None, _ => q
  end.

(** An [async] function's body: it runs on the loop and either settles,
    leaving the loop in a new state, or waits forever. *)
Definition Async (T : Type) := loop -> option (settled T * loop).

Definition ret (T : Type) (v : T) : Async T :=
  fun w => Some (Resolves v, w).

Definition bind (A B : Type) (m : Async A) (k : A -> Async B) : Async B :=
  fun w =>
    match m w with
    | Some (Resolves v, w') => k v w'
    | Some (Rejects e, w') => Some (Rejects e, w')
    | None => None
    end.

(** [try { m } catch (error) { h error }] *)
Definition try_catch (T : Type) (m : Async T) (h : thrown -> Async T) : Async T :=
  fun w =>
    match m w with
    | Some (Rejects e, w') => h e w'
    | r => r
    end.

(** A synchronous step that cannot throw. *)
Definition lift (T : Type) (f : loop -> T * loop) : Async T :=
  fun w => let (v, w') := f w in Some (Resolves v, w').

(** [await p] *)
Definition await (T : Type) (p : promise T) : Async T :=
  fun w =>
    match p with
    | Some (t, r) => Some (r, advance t w)
    | None => None
    end.

End EventLoop.

Arguments Called {call} c.
Arguments TimerSet {call} ms t.
Arguments TimerFired {call} t.
Arguments ret {call T} v.
Arguments lift {call T} f.
Arguments await {call T} p.
Arguments race {T} p q.

Declare Scope async_scope.
Delimit Scope async_scope with async.
Notation "x <- m ;; k" := (bind m (fun x => k))
  (at level 100, m at next level, right associativity) : async_scope.
Notation "'let!' x := f 'in' k" := (bind (lift f) (fun x => k))
  (at level 100, x name, f at next level, right associativity) : async_scope.

(* ------------------------------------------------------------------ *)
(** ** Constants and the timeout guard *)

Definition CHARACTER_LIMIT : N := 200000.
Definition RENDER_TIMEOUT_MS : N := 30000.

(** The text of [ms / 1000] in a template literal: the integer part and, when
    [ms] is not a multiple of 1000, up to three decimals without trailing
    zeros.  (Exact for every [ms] below 10^15.) *)
Definition seconds_text (ms : N) : jsstring :=
  let q := (ms / 1000)%N in
  let r := (ms mod 1000)%N in
  let d1 := (48 + r / 100)%N in
  let d2 := (48 + (r / 10) mod 10)%N in
  let d3 := (48 + r mod 10)%N in
  if (r =? 0)%N then number_toString q
  else number_toString q ++ 46%N ::
       (if negb (r mod 10 =? 0)%N then [d1; d2; d3]
        else if negb ((r / 10) mod 10 =? 0)%N then [d1; d2]
        else [d1]).

Definition EM_DASH : code_unit := 8212%N.

Definition timeout_message (label : jsstring) (ms : N) : jsstring :=
  label ++ lit " timed out after " ++ seconds_text ms ++ lit "s. "
    ++ lit "If you used layout-engine: elk, switch to dagre (or remove the layout setting entirely) "
    ++ [EM_DASH] ++ lit " "
    ++ lit "ELK is extremely slow in WASM.".

(** The longest delay [setTimeout] takes as it is. *)
Definition TIMEOUT_MAX : N := 2147483647.

Section Guard.

Variable call : Type.

(** [withTimeout(promise, ms, label)] *)
Definition withTimeout (T : Type) (p : promise T) (ms : N) (label : jsstring)
           (w : loop call) : promise T * loop call :=
  let (q, w') := reject_after T ms (new_Error (timeout_message label ms)) w in
  (race p q, w').

End Guard.

Arguments withTimeout {call T} p ms label w.

(* ------------------------------------------------------------------ *)
(** ** Tool inputs and results *)

Inductive Layout : Type := DAGRE | ELK.

(** [CompileOptions] of the D2 package, as far as the handlers set it. *)
Module Compile.
Record CompileOptions : Type := {
  layout : option Layout;
  sketch : option bool;
  themeID : option Z;
  darkThemeID : option Z;
  pad : option Z;
  center : option bool;
  ascii : option bool
}.
End Compile.

(** The object passed as second argument of [compile]: [{ options }]. *)
Record CompileRequest : Type := { options : Compile.CompileOptions }.

Record RenderInput : Type := {
  d2_code : jsstring;
  theme_id : option Z;
  dark_theme_id : option Z;
  layout : option Layout;
  sketch : option bool;
  pad : option Z;
  center : option bool;
  ascii : option bool;
  skip_fonts : option bool
}.

(** What [RenderInputSchema] checks beyond the field types: a non-empty
    source and a padding of at least 0. *)
Definition RenderInputSchema (p : RenderInput) : bool :=
  (1 <=? js_length (d2_code p))%N
  && match pad p with Some n => (0 <=? n)%Z | None => true end.

Module Validate.
Record ValidateInput : Type := { d2_code : jsstring }.
End Validate.

Definition ValidateInputSchema (p : Validate.ValidateInput) : bool :=
  (1 <=? js_length (Validate.d2_code p))%N.

Module Format.
Record FormatInput : Type := { d2_code : jsstring }.
End Format.

Definition FormatInputSchema (p : Format.FormatInput) : bool :=
  (1 <=? js_length (Format.d2_code p))%N.

(** The [output] object of [d2_validate]; [error] is absent when [None]. *)
Record ValidateOutput : Type := {
  valid : bool;
  error : option jsstring
}.

(** What a handler returns: [isError] (absent counts as false), the text of
    the single content item and, for [d2_validate], [structuredContent]. *)
Record ToolResult : Type := {
  isError : bool;
  text : jsstring;
  structuredContent : option ValidateOutput
}.

(** [BinaryResult] *)
Record BinaryResult : Type := {
  stdout : jsstring;
  stderr : jsstring;
  exitCode : Z
}.

(** What the child does first: its ['error'] event (it could not be
    launched), its ['close'] event, with the chunks its output streams
    delivered until then, or the ['error'] event of [child.stdin], when
    [child.stdin.write(stdin)] fails because the child has gone without
    reading its input (EPIPE). *)
Inductive child_event : Type :=
| ChildError (err : ErrorObject)
| ChildClose (out_chunks err_chunks : list jsstring) (code : option Z)
| StdinError (err : ErrorObject).

(* ------------------------------------------------------------------ *)
(** ** The server *)

Section Server.

(** The diagram representation and the render options that [compile]
    hands to [render] are the D2 package's own. *)
Variables Diagram RenderOptions : Type.

Record CompileResponse : Type := {
  diagram : Diagram;
  renderOptions : RenderOptions
}.

(** The shared [D2] instance that [getD2()] returns. *)
Record D2 : Type := {
  compile : jsstring -> option CompileRequest -> behaviour CompileResponse;
  render : Diagram -> RenderOptions -> behaviour jsstring
}.

Inductive call : Type :=
| CompileCall (source : jsstring) (request : option CompileRequest)
| RenderCall (d : Diagram) (o : RenderOptions)
| SpawnCall (path : jsstring) (args : list jsstring) (stdin : jsstring).

(** [JSON.stringify] on the output object of [d2_validate]. *)
Variable JSON_stringify : ValidateOutput -> jsstring.

(** [process.env.D2_PATH] and the behaviour of [spawn] on a command line
    and the text written to the child's stdin. *)
Variable D2_PATH : option jsstring.
Variable spawn : jsstring -> list jsstring -> jsstring -> option (N * child_event).

Local Open Scope async_scope.

Definition binary_not_found : jsstring :=
  lit "d2 binary not found. Install d2 from https://d2lang.com or set D2_PATH env var. "
    ++ lit "Note: d2_render and d2_validate work without the binary.".

(** [err.code === "ENOENT"] *)
Definition is_ENOENT (err : ErrorObject) : bool :=
  match code err with
  | Some c => str_eqb c (lit "ENOENT")
  | None => false
  end.

(** How the promise of [runD2Binary] settles on the child's event.  The
    source listens to ['close'] and ['error'] of the child only: an error
    of [child.stdin] settles nothing. *)
Definition on_child_event (ev : child_event) : option (settled BinaryResult) :=
  match ev with
  | ChildClose out_chunks err_chunks code =>
      Some (Resolves {| stdout := concat out_chunks;
                        stderr := concat err_chunks;
                        exitCode := match code with Some c => c | None => 1%Z end |})
  | ChildError err =>
      if is_ENOENT err then Some (Rejects (new_Error binary_not_found))
      else Some (Rejects (ThrownError err))
  | StdinError _ => None
  end.

(** An ['error'] event without a listener is thrown; nothing in the source
    catches it, so it ends the process. *)
Definition uncaught (ev : child_event) : option ErrorObject :=
  match ev with
  | StdinError err => Some err
  | _ => None
  end.

Definition runD2Binary (args : list jsstring) (stdin : jsstring) (w : loop call)
  : promise BinaryResult * loop call :=
  let d2Path := js_or (match D2_PATH with Some v => v | None => [] end) (lit "d2") in
  start (SpawnCall d2Path args stdin)
        (match spawn d2Path args stdin with
         | Some (d, ev) => option_map (fun r => (d, r)) (on_child_event ev)
         | None => None
         end)
        w.

Definition size_limit_message (len : N) : jsstring :=
  lit "Error: Rendered output is too large (" ++ number_toString len
    ++ lit " chars, limit " ++ number_toString CHARACTER_LIMIT ++ lit "). "
    ++ lit "Simplify your diagram, use ascii=true, or use skip_fonts=true for a smaller SVG output.".

Definition render_failure_message (msg : jsstring) : jsstring :=
  lit "Error rendering D2 diagram: " ++ msg ++ [NL; NL]
    ++ lit "Tip: Use d2_validate to check for syntax errors first.".

Definition compileOptions_of (params : RenderInput) : Compile.CompileOptions :=
  {| Compile.layout := layout params;
     Compile.sketch := sketch params;
     Compile.themeID := theme_id params;
     Compile.darkThemeID := dark_theme_id params;
     Compile.pad := pad params;
     Compile.center := center params;
     Compile.ascii := ascii params |}.

(** The text [d2_render] is left with after the optional font stripping. *)
Definition postprocess (params : RenderInput) (svg : jsstring) : jsstring :=
  if truthy_flag (skip_fonts params) then stripFontFaces svg else svg.

(** Handler of [d2_render]. *)
Definition d2_render (d2 : D2) (params : RenderInput) : Async call ToolResult :=
  try_catch
    (let compileOptions := compileOptions_of params in
     let request := Some {| options := compileOptions |} in
     let! compiling := start (CompileCall (d2_code params) request)
                             (compile d2 (d2_code params) request) in
     let! guarded := withTimeout compiling RENDER_TIMEOUT_MS (lit "d2_render compile") in
     result <- await guarded ;;
     let! rendering := start (RenderCall (diagram result) (renderOptions result))
                             (render d2 (diagram result) (renderOptions result)) in
     let! guarded' := withTimeout rendering RENDER_TIMEOUT_MS (lit "d2_render render") in
     svg <- await guarded' ;;
     let svg := postprocess params svg in
     if (CHARACTER_LIMIT <? js_length svg)%N then
       ret {| isError := true;
              text := size_limit_message (js_length svg);
              structuredContent := None |}
     else
       ret {| isError := false; text := svg; structuredContent := None |})
    (fun error =>
       let msg := error_text error in
       ret {| isError := true;
              text := render_failure_message msg;
              structuredContent := None |}).

(** Handler of [d2_validate]. *)
Definition d2_validate (d2 : D2) (params : Validate.ValidateInput) : Async call ToolResult :=
  try_catch
    (let! compiling := start (CompileCall (Validate.d2_code params) None)
                             (compile d2 (Validate.d2_code params) None) in
     _ <- await compiling ;;
     let output := {| valid := true; error := None |} in
     ret {| isError := false;
            text := JSON_stringify output;
            structuredContent := Some output |})
    (fun error =>
       let msg := error_text error in
       let output := {| valid := false; error := Some msg |} in
       ret {| isError := false;
              text := JSON_stringify output;
              structuredContent := Some output |}).

(** Handler of [d2_format]. *)
Definition d2_format (params : Format.FormatInput) : Async call ToolResult :=
  try_catch
    (let! running := runD2Binary [lit "fmt"; lit "-"] (Format.d2_code params) in
     result <- await running ;;
     if negb (exitCode result =? 0)%Z then
       let errorMsg := js_or (js_or (stderr result) (stdout result)) (lit "Unknown error") in
       ret {| isError := true;
              text := lit "Error formatting D2 code: " ++ trim errorMsg;
              structuredContent := None |}
     else
       ret {| isError := false; text := stdout result; structuredContent := None |})
    (fun error =>
       let msg := error_text error in
       ret {| isError := true;
              text := lit "Error: " ++ msg;
              structuredContent := None |}).

(** How a call of [d2_format] ends: the handler settles, or it is still
    waiting for the child, or an uncaught error has ended the process. *)
Inductive call_outcome : Type :=
| Settled (r : settled ToolResult)
| Waiting
| ProcessEnded (err : ErrorObject).

Definition format_call (params : Format.FormatInput) (w : loop call) : call_outcome :=
  let d2Path := js_or (match D2_PATH with Some v => v | None => [] end) (lit "d2") in
  match spawn d2Path [lit "fmt"; lit "-"] (Format.d2_code params) with
  | Some (_, ev) =>
      match uncaught ev, d2_format params w with
      | Some err, _ => ProcessEnded err
      | None, Some (r, _) => Settled r
      | None, None => Waiting
      end
  | None => Waiting
  end.

(** *** Reading a run *)

(** The events a run added to the trace it started from. *)
Definition added (before after : loop call) : list (event call) :=
  skipn (length (trace before)) (trace after).

Definition is_facade (c : call) : bool :=
  match c with
  | CompileCall _ _ | RenderCall _ _ => true
  | SpawnCall _ _ _ => false
  end.

Definition phase_name (c : call) : jsstring :=
  match c with
  | CompileCall _ _ => lit "compile"
  | RenderCall _ _ => lit "render"
  | SpawnCall _ _ _ => lit "spawn"
  end.

(** Is [ev] the arming of a guard's timer, with the deadline
    [RENDER_TIMEOUT_MS] and a label that ends in the phase of [c]? *)
Definition guards (c : call) (ev : event call) : bool :=
  match ev with
  | TimerSet ms t =>
      (ms =? RENDER_TIMEOUT_MS)%N
      && match rejection t with
         | ThrownError e =>
             includes (message e)
                      (lit " " ++ phase_name c ++ lit " timed out after 30s.")
         | ThrownValue _ => false
         end
  | _ => false
  end.

(** Every call of the Compiler Facade in the trace is passed to the guard at
    once: the next event arms the guard's timer. *)
Fixpoint through_guard (tr : list (event call)) : bool :=
  match tr with
  | [] => true
  | Called c :: rest =>
      if is_facade c then
        match rest with
        | ev :: _ => guards c ev && through_guard rest
        | [] => false
        end
      else through_guard rest
  | _ :: rest => through_guard rest
  end.

Definition is_TimerSet (ev : event call) : bool :=
  match ev with TimerSet _ _ => true | _ => false end.

(** [w'] continues [w], and every facade call made in between went through
    the guard. *)
Definition guarded_run (w w' : loop call) : Prop :=
  exists evs, trace w' = trace w ++ evs /\ through_guard evs = true.

End Server.

Arguments CompileCall {Diagram RenderOptions} source request.
Arguments RenderCall {Diagram RenderOptions} d o.
Arguments SpawnCall {Diagram RenderOptions} path args stdin.

(** The timer that [withTimeout] arms when it is called in state [w]. *)
Definition guard_timer (call : Type) (w : loop call) (ms : N) (label : jsstring)
  : timer :=
  {| due := (clock w + ms)%N;
     rejection := new_Error (timeout_message label ms) |}.

(** The loop right after [withTimeout(operation, ms, label)] has been
    evaluated in state [w]: the operation [c] is under way and the guard's
    timer is armed. *)
Definition after_arming (call : Type) (w : loop call) (c : call) (ms : N)
           (label : jsstring) : loop call :=
  {| clock := clock w;
     armed := arm (guard_timer w ms label) (armed w);
     trace := (trace w ++ [Called c]) ++ [TimerSet ms (guard_timer w ms label)] |}.

(* ------------------------------------------------------------------ *)
(** ** Sample collaborators

    Small stand-ins for the D2 package, the runtime and the child process,
    on which the statements below are tried. *)

Module Sample.

Definition idle : loop (@call unit unit) :=
  {| clock := 0; armed := []; trace := [] |}.

Definition compiled : CompileResponse unit unit :=
  {| diagram := tt; renderOptions := tt |}.

(** Compiles in 5 ms and renders [out] in 7 ms. *)
Definition quick (out : jsstring) : D2 unit unit :=
  {| compile := fun _ _ => Some (5%N, Resolves compiled);
     render := fun _ _ => Some (7%N, Resolves out) |}.

(** The compile step takes [d] ms. *)
Definition slow (d : N) (out : jsstring) : D2 unit unit :=
  {| compile := fun _ _ => Some (d, Resolves compiled);
     render := fun _ _ => Some (7%N, Resolves out) |}.

(** The compile step never settles. *)
Definition hanging : D2 unit unit :=
  {| compile := fun _ _ => None;
     render := fun _ _ => None |}.


Definition QUOTE : code_unit := 34%N.

Definition quoted (s : jsstring) : jsstring := QUOTE :: s ++ [QUOTE].

(** [JSON.stringify] on texts that need no escaping. *)
Definition stringify (o : ValidateOutput) : jsstring :=
  lit "{" ++ quoted (lit "valid") ++ lit ":"
    ++ (if valid o then lit "true" else lit "false")
    ++ match error o with
       | Some e => lit "," ++ quoted (lit "error") ++ lit ":" ++ quoted e
       | None => []
       end
    ++ lit "}".

Definition plain (source : jsstring) : RenderInput :=
  {| d2_code := source; theme_id := None; dark_theme_id := None;
     layout := None; sketch := None; pad := None; center := None;
     ascii := None; skip_fonts := None |}.

(** [ascii: true, skip_fonts: true] *)
Definition ascii_stripped (source : jsstring) : RenderInput :=
  {| d2_code := source; theme_id := None; dark_theme_id := None;
     layout := None; sketch := None; pad := None; center := None;
     ascii := Some true; skip_fonts := Some true |}.

Definition source_of (source : jsstring) : Validate.ValidateInput :=
  {| Validate.d2_code := source |}.

Definition code_of (source : jsstring) : Format.FormatInput :=
  {| Format.d2_code := source |}.

(** A child that cannot be launched: ['error'] after 1 ms. *)
Definition no_child (err : ErrorObject)
  : jsstring -> list jsstring -> jsstring -> option (N * child_event) :=
  fun _ _ _ => Some (1%N, ChildError err).

(** A child that closes after 9 ms. *)
Definition child (out_chunks err_chunks : list jsstring) (status : option Z)
  : jsstring -> list jsstring -> jsstring -> option (N * child_event) :=
  fun _ _ _ => Some (9%N, ChildClose out_chunks err_chunks status).

Definition ENOENT : ErrorObject :=
  {| message := lit "spawn /nowhere/d2 ENOENT"; code := Some (lit "ENOENT") |}.

Definition EACCES : ErrorObject :=
  {| message := lit "spawn /opt/d2 EACCES"; code := Some (lit "EACCES") |}.

(** A text of 200,000 code units, and one of 200,001. *)
Definition at_limit : jsstring := repeat 97%N (N.to_nat CHARACTER_LIMIT).
Definition over_limit : jsstring := 97%N :: at_limit.

(** Plain-text art of a shape whose label is [@font-face {a}]. *)
Definition ascii_art : jsstring :=
  lit "+----------------+" ++ [NL]
    ++ lit "| @font-face {a} |" ++ [NL]
    ++ lit "+----------------+" ++ [NL].

(** A compiler that is slow under [layout: elk] only. *)
Definition elk_hangs (out : jsstring) : D2 unit unit :=
  {| compile := fun _ request =>
       match request with
       | Some {| options := o |} =>
           match Compile.layout o with
           | Some ELK => None
           | _ => Some (5%N, Resolves compiled)
           end
       | None => Some (5%N, Resolves compiled)
       end;
     render := fun _ _ => Some (7%N, Resolves out) |}.

End Sample.

(* ------------------------------------------------------------------ *)
(** ** The rest of the server: the shared instance, the start-up and the
    catalogs *)

Section Startup.

Variables Diagram RenderOptions : Type.

(** The collaborator calls recorded in a list of events, in order. *)
Fixpoint calls_of (evs : list (event (@call Diagram RenderOptions)))
  : list (@call Diagram RenderOptions) :=
  match evs with
  | [] => []
  | Called c :: rest => c :: calls_of rest
  | _ :: rest => calls_of rest
  end.

(** [w'] continues [w] with events whose calls are [cs]. *)
Definition extends (w w' : loop (@call Diagram RenderOptions))
           (cs : list (@call Diagram RenderOptions)) : Prop :=
  exists evs, trace w' = trace w ++ evs /\ calls_of evs = cs.

(** The module variable [d2Instance], with a count of the [new D2()]
    evaluated so far. *)
Record registry : Type := {
  d2Instance : option (D2 Diagram RenderOptions);
  constructed : nat
}.

Definition no_instance : registry :=
  {| d2Instance := None; constructed := 0 |}.

(** [getD2()]; [make k] is the instance that the [k]-th [new D2()] yields. *)
Definition getD2 (make : nat -> D2 Diagram RenderOptions) (st : registry)
  : D2 Diagram RenderOptions * registry :=
  match d2Instance st with
  | Some d2 => (d2, st)
  | None =>
      let d2 := make (constructed st) in
      (d2, {| d2Instance := Some d2; constructed := S (constructed st) |})
  end.

(** [n] calls of [getD2()] in a row, with what each returned. *)
Fixpoint getD2_times (make : nat -> D2 Diagram RenderOptions) (n : nat)
         (st : registry) : list (D2 Diagram RenderOptions) * registry :=
  match n with
  | O => ([], st)
  | S n' =>
      let (d2, st') := getD2 make st in
      let (rest, st'') := getD2_times make n' st' in
      (d2 :: rest, st'')
  end.

(** [Promise.all([p, q])]: resolved when both are, rejected as soon as one
    is.  (When both reject on the same millisecond, the first is taken.) *)
Definition Promise_all (A B : Type) (p : promise A) (q : promise B)
  : promise (A * B) :=
  match p, q with
  | Some (tp, Resolves a), Some (tq, Resolves b) =>
      Some (N.max tp tq, Resolves (a, b))
  | Some (tp, Rejects e), Some (tq, Rejects e') =>
      if (tq <? tp)%N then Some (tq, Rejects e') else Some (tp, Rejects e)
  | Some (tp, Rejects e), _ => Some (tp, Rejects e)
  | _, Some (tq, Rejects e) => Some (tq, Rejects e)
  | _, _ => None
  end.

(** What [main] and its callbacks write with [console.error]. *)
Inductive console_line : Type :=
| Running                         (* D2 MCP server running via stdio *)
| WarmedUp                        (* D2 WASM warmed up (dagre + elk ready) *)
| WarmupError (err : thrown)      (* D2 WASM warmup error: err *)
| ServerError (error : thrown).   (* Server error: error *)

(** [{ options: { layout } }] *)
Definition layout_only (l : Layout) : option CompileRequest :=
  Some {| options :=
            {| Compile.layout := Some l; Compile.sketch := None;
               Compile.themeID := None; Compile.darkThemeID := None;
               Compile.pad := None; Compile.center := None;
               Compile.ascii := None |} |}.

(** [p.then(() => log(WarmedUp)).catch(err => log(WarmupError err))]: the
    line that will be written, and when. *)
Definition then_catch_log (T : Type) (p : promise T) : promise console_line :=
  match p with
  | Some (t, Resolves _) => Some (t, Resolves WarmedUp)
  | Some (t, Rejects err) => Some (t, Resolves (WarmupError err))
  | None => None
  end.

(** The warm-up of [main]: both compiles are started, nothing is awaited. *)
Definition warm_up (d2 : D2 Diagram RenderOptions)
           (w : loop (@call Diagram RenderOptions))
  : promise console_line * loop (@call Diagram RenderOptions) :=
  let (dagre, w1) :=
    start (CompileCall (lit "_warmup") (layout_only DAGRE))
          (compile d2 (lit "_warmup") (layout_only DAGRE)) w in
  let (elk, w2) :=
    start (CompileCall (lit "_warmup") (layout_only ELK))
          (compile d2 (lit "_warmup") (layout_only ELK)) w1 in
  (then_catch_log (Promise_all dagre elk), w2).

(** [server.connect(transport)] is the SDK's; it leaves no event. *)
Definition connecting (connect : behaviour unit)
           (w : loop (@call Diagram RenderOptions))
  : promise unit * loop (@call Diagram RenderOptions) :=
  (option_map (fun dr => ((clock w + fst dr)%N, snd dr)) connect, w).

(** [main()]: what it has written when it returns, and the pending
    warm-up. *)
Definition main (connect : behaviour unit) (d2 : D2 Diagram RenderOptions)
  : Async (@call Diagram RenderOptions) (list console_line * promise console_line) :=
  (let! connected := connecting connect in
   _ <- await connected ;;
   let! warming := warm_up d2 in
   ret ([Running], warming))%async.

(** The process after [main().catch(...)]. *)
Inductive startup : Type :=
| Serving (console : list console_line) (warming : promise console_line)
| Exited (status : Z) (console : list console_line).

Definition launch (connect : behaviour unit) (d2 : D2 Diagram RenderOptions)
           (w : loop (@call Diagram RenderOptions))
  : option (startup * loop (@call Diagram RenderOptions)) :=
  match main connect d2 w with
  | Some (Resolves (console, warming), w') => Some (Serving console warming, w')
  | Some (Rejects error, w') => Some (Exited 1 [ServerError error], w')
  | None => None
  end.

End Startup.

Arguments no_instance {Diagram RenderOptions}.

(** *** Catalogs *)

Record Theme : Type := { id : Z; name : jsstring }.

Record ThemeCatalog : Type := { light : list Theme; dark : list Theme }.

Definition THEMES : ThemeCatalog :=
  {| light :=
       [ {| id := 0; name := lit "Neutral Default" |};
         {| id := 1; name := lit "Neutral Grey" |};
         {| id := 3; name := lit "Flagship Terrastruct" |};
         {| id := 4; name := lit "Cool Classics" |};
         {| id := 5; name := lit "Mixed Berry Blue" |};
         {| id := 6; name := lit "Grape Soda" |};
         {| id := 7; name := lit "Aubergine" |};
         {| id := 8; name := lit "Colorblind Clear" |};
         {| id := 100; name := lit "Vanilla Nitro Cola" |};
         {| id := 101; name := lit "Orange Creamsicle" |};
         {| id := 102; name := lit "Shirley Temple" |};
         {| id := 103; name := lit "Earth Tones" |};
         {| id := 104; name := lit "Everglade Green" |};
         {| id := 105; name := lit "Buttered Toast" |};
         {| id := 300; name := lit "Terminal" |};
         {| id := 301; name := lit "Terminal Grayscale" |};
         {| id := 302; name := lit "Origami" |};
         {| id := 303; name := lit "C4" |} ];
     dark :=
       [ {| id := 200; name := lit "Dark Mauve" |};
         {| id := 201; name := lit "Dark Flagship Terrastruct" |} ] |}%Z.

(** The string value of a member of the [Layout] enum. *)
Definition Layout_value (l : Layout) : jsstring :=
  match l with
  | DAGRE => lit "dagre"
  | ELK => lit "elk"
  end.

(** [z.nativeEnum(Layout)]: the enum member a string stands for. *)
Definition Layout_parse (s : jsstring) : option Layout :=
  if str_eqb s (lit "dagre") then Some DAGRE
  else if str_eqb s (lit "elk") then Some ELK
  else None.

Record LayoutEntry : Type := {
  layout_name : jsstring;
  description : jsstring;
  features : list jsstring
}.

(** The [layouts] of the output of [d2_list_layouts]. *)
Definition LAYOUTS : list LayoutEntry :=
  [ {| layout_name := lit "dagre";
       description := lit "Default layout. Fast directed graph using the Graphviz DOT algorithm. Best for most diagrams.";
       features := [lit "near to constants"; lit "direction control";
                    lit "fast rendering"] |};
    {| layout_name := lit "elk";
       description := lit "Eclipse Layout Kernel. More mature algorithm, better for complex graphs.";
       features := [lit "near to constants";
                    lit "ancestor-to-descendant connections";
                    lit "width/height on containers";
                    lit "direction control"] |} ].

Definition AT_SIGN : code_unit := 64%N.



(** [{ ...params, skip_fonts: flag }] *)
Definition set_skip_fonts (params : RenderInput) (flag : option bool) : RenderInput :=
  {| d2_code := d2_code params; theme_id := theme_id params;
     dark_theme_id := dark_theme_id params; layout := layout params;
     sketch := sketch params; pad := pad params; center := center params;
     ascii := ascii params; skip_fonts := flag |}.

(* ------------------------------------------------------------------ *)
(** ** More sample collaborators *)

Module Fixture.

(** A compiler whose compile fails under [layout: elk] after 8 ms and
    succeeds after 5 ms otherwise. *)
Definition elk_fails (msg : jsstring) : D2 unit unit :=
  {| compile := fun _ request =>
       match request with
       | Some {| options := o |} =>
           match Compile.layout o with
           | Some ELK => Some (8%N, Rejects (new_Error msg))
           | _ => Some (5%N, Resolves Sample.compiled)
           end
       | None => Some (5%N, Resolves Sample.compiled)
       end;
     render := fun _ _ => Some (7%N, Resolves (lit "<svg/>")) |}.





(** Every [new D2()] yields an instance of its own. *)
Definition make (k : nat) : D2 unit unit :=
  Sample.slow (N.of_nat k) (lit "<svg/>").

(** [skip_fonts: true] only. *)
Definition stripped (source : jsstring) : RenderInput :=
  {| d2_code := source; theme_id := None; dark_theme_id := None;
     layout := None; sketch := None; pad := None; center := None;
     ascii := None; skip_fonts := Some true |}.

(** A font-face block of more than 200,000 code units and a small drawing
    behind it. *)
Definition heavy_svg : jsstring :=
  lit "@font-face {" ++ Sample.at_limit ++ lit "}" ++ lit "<svg/>".

End Fixture.

(* ================================================================== *)
(** * Properties *)

(* ------------------------------------------------------------------ *)
(** ** Global replacement *)

Module RegexFacts.

Lemma many_unfold (p : code_unit -> bool) (pat' : pattern) (s : jsstring) :
  match_len (Many p :: pat') s =
  match s with
  | c :: s' =>
      if p c then
        match match_len (Many p :: pat') s' with
        | Some n => Some (S n)
        | None => match_len pat' s
        end
      else match_len pat' s
  | [] => match_len pat' s
  end.
Proof. destruct s; reflexivity. Qed.

(** A match never runs past the end of the subject. *)
Lemma match_len_le (pat : pattern) :
  forall s n, match_len pat s = Some n -> n <= length s.
Proof.
  induction pat as [|a pat' IH]; intros s n H.
  - simpl in H. injection H as <-. lia.
  - destruct a as [p|p].
    + destruct s as [|c s']; simpl in H; [discriminate|].
      destruct (p c); [|discriminate].
      destruct (match_len pat' s') as [m|] eqn:E; simpl in H; [|discriminate].
      injection H as <-. apply IH in E. simpl. lia.
    + revert n H. induction s as [|c s' IHs]; intros n H.
      * rewrite many_unfold in H. now apply IH in H.
      * rewrite many_unfold in H. destruct (p c).
        -- destruct (match_len (Many p :: pat') s') as [m|] eqn:E.
           ++ injection H as <-. specialize (IHs m eq_refl). simpl. lia.
           ++ now apply IH in H.
        -- now apply IH in H.
Qed.

(** Every [One] of the pattern consumes a code unit. *)
Lemma match_len_min (pat : pattern) :
  forall s n, match_len pat s = Some n -> min_len pat <= n.
Proof.
  induction pat as [|a pat' IH]; intros s n H.
  - simpl. lia.
  - destruct a as [p|p].
    + destruct s as [|c s']; simpl in H; [discriminate|].
      destruct (p c); [|discriminate].
      destruct (match_len pat' s') as [m|] eqn:E; simpl in H; [|discriminate].
      injection H as <-. apply IH in E. simpl. lia.
    + revert n H. induction s as [|c s' IHs]; intros n H.
      * rewrite many_unfold in H. now apply IH in H.
      * rewrite many_unfold in H. destruct (p c).
        -- destruct (match_len (Many p :: pat') s') as [m|] eqn:E.
           ++ injection H as <-. specialize (IHs m eq_refl). simpl in *. lia.
           ++ now apply IH in H.
        -- now apply IH in H.
Qed.

(** Dropping the rest of a match is the same as resuming behind it. *)
Lemma replace_from_skip (pat : pattern) (repl : jsstring) :
  forall s k, k <= length s ->
    replace_from pat repl s k = replace_all pat repl (skipn k s).
Proof.
  induction s as [|c s' IH]; intros k Hk.
  - simpl in Hk. assert (k = 0) as -> by lia. reflexivity.
  - destruct k as [|k]; [reflexivity|].
    simpl in Hk. simpl. apply IH. lia.
Qed.

Lemma replace_all_nil (pat : pattern) (repl : jsstring) :
  match_len pat [] = None -> replace_all pat repl [] = [].
Proof. unfold replace_all. simpl. now intros ->. Qed.

Lemma replace_all_miss (pat : pattern) (repl : jsstring) c s :
  match_len pat (c :: s) = None ->
  replace_all pat repl (c :: s) = c :: replace_all pat repl s.
Proof. unfold replace_all. simpl replace_from. now intros ->. Qed.

Lemma replace_all_hit (pat : pattern) (repl : jsstring) c s n :
  match_len pat (c :: s) = Some (S n) ->
  replace_all pat repl (c :: s) = repl ++ replace_all pat repl (skipn n s).
Proof.
  intros H. unfold replace_all at 1. simpl replace_from. rewrite H.
  f_equal. apply replace_from_skip.
  apply match_len_le in H. simpl in H. lia.
Qed.

(** Without a match the subject is returned as it is. *)
Lemma replace_all_no_match (pat : pattern) (repl : jsstring) :
  forall s, has_match pat s = false -> replace_all pat repl s = s.
Proof.
  induction s as [|c s' IH]; intros H.
  - simpl in H. destruct (match_len pat []) eqn:E; [discriminate|].
    now apply replace_all_nil.
  - simpl in H. destruct (match_len pat (c :: s')) eqn:E; [discriminate|].
    rewrite replace_all_miss by assumption. f_equal. now apply IH.
Qed.

(** A replacement no longer than the shortest match never lengthens the
    subject, and a shorter one shortens every subject that has a match. *)
Lemma replace_all_length (pat : pattern) (repl : jsstring) :
  0 < min_len pat -> length repl <= min_len pat ->
  forall m s, length s <= m ->
    length (replace_all pat repl s) <= length s
    /\ (length repl < min_len pat -> has_match pat s = true ->
        length (replace_all pat repl s) < length s).
Proof.
  intros Hpos Hrepl.
  induction m as [|m IH]; intros s Hm.
  - destruct s; [|simpl in Hm; lia].
    destruct (match_len pat []) eqn:E.
    + pose proof (match_len_le _ _ E). apply match_len_min in E. simpl in *. lia.
    + rewrite replace_all_nil by assumption. simpl. rewrite E.
      split; [lia|discriminate].
  - destruct s as [|c s'].
    + destruct (match_len pat []) eqn:E.
      * pose proof (match_len_le _ _ E). apply match_len_min in E. simpl in *. lia.
      * rewrite replace_all_nil by assumption. simpl. rewrite E.
        split; [lia|discriminate].
    + simpl in Hm. destruct (match_len pat (c :: s')) as [n|] eqn:E.
      * pose proof (match_len_min _ _ E) as Hmin.
        pose proof (match_len_le _ _ E) as Hle. simpl in Hle.
        destruct n as [|n]; [lia|].
        rewrite replace_all_hit with (n := n) by exact E. rewrite length_app.
        destruct (IH (skipn n s')) as [IH1 _].
        { rewrite length_skipn. lia. }
        rewrite length_skipn in IH1. simpl. split; intros; lia.
      * rewrite replace_all_miss by assumption.
        destruct (IH s') as [IH1 IH2]; [lia|].
        simpl. rewrite E. split; [lia|].
        intros Hlt Hm'. specialize (IH2 Hlt Hm'). lia.
Qed.

End RegexFacts.

(* ------------------------------------------------------------------ *)
(** ** The post-processor *)

Module StripFacts.

Import RegexFacts.

Lemma many_newlines (s : jsstring) :
  match_len [Many (unit_eqb NL)] s = Some (nl_run s).
Proof.
  induction s as [|c s' IH]; [reflexivity|].
  rewrite many_unfold, IH. cbn [nl_run match_len].
  destruct (unit_eqb NL c); reflexivity.
Qed.

(** [/\n{3,}/] matches at the head exactly when the subject begins with at
    least three newlines, and then it takes them all. *)
Lemma newlines3_match (s : jsstring) :
  match_len newlines3_re s = if 3 <=? nl_run s then Some (nl_run s) else None.
Proof.
  unfold newlines3_re.
  destruct s as [|a s]; [reflexivity|].
  cbn [match_len nl_run].
  destruct (unit_eqb NL a); [|reflexivity].
  destruct s as [|b s]; [reflexivity|].
  cbn [match_len nl_run].
  destruct (unit_eqb NL b); [|reflexivity].
  destruct s as [|c s]; [reflexivity|].
  cbn [match_len nl_run].
  destruct (unit_eqb NL c); [|reflexivity].
  rewrite many_newlines. reflexivity.
Qed.

Lemma has_newlines3_cons c s :
  has_match newlines3_re (c :: s) =
  (3 <=? nl_run (c :: s)) || has_match newlines3_re s.
Proof.
  cbn [has_match]. rewrite newlines3_match.
  destruct (3 <=? nl_run (c :: s)); reflexivity.
Qed.

Lemma nl_run_le (s : jsstring) : nl_run s <= length s.
Proof.
  induction s as [|c s IH]; cbn [nl_run length]; [lia|].
  destruct (unit_eqb NL c); lia.
Qed.

(** Behind its leading newlines a text begins with something else. *)
Lemma nl_run_skipn (s : jsstring) : nl_run (skipn (nl_run s) s) = 0.
Proof.
  induction s as [|c s IH]; [reflexivity|].
  cbn [nl_run]. destruct (unit_eqb NL c) eqn:E; cbn [skipn nl_run]; [exact IH|now rewrite E].
Qed.

(** The collapse leaves no run of three newlines, and it keeps up to two
    leading newlines as they are. *)
Lemma collapse_newlines_spec :
  forall m s, length s <= m ->
    has_match newlines3_re (collapse_newlines s) = false
    /\ nl_run (collapse_newlines s) = Nat.min (nl_run s) 2.
Proof.
  unfold collapse_newlines.
  induction m as [|m IH]; intros s Hm.
  - destruct s; [|simpl in Hm; lia]. split; reflexivity.
  - destruct s as [|c s]; [split; reflexivity|].
    simpl in Hm.
    pose proof (newlines3_match (c :: s)) as Hhead.
    destruct (3 <=? nl_run (c :: s)) eqn:E3.
    + apply Nat.leb_le in E3.
      remember (nl_run (c :: s)) as r eqn:Hr.
      destruct r as [|r]; [lia|].
      rewrite replace_all_hit with (n := r) by exact Hhead.
      assert (nl_run (skipn r s) = 0) as Hrest.
      { replace (skipn r s) with (skipn (nl_run (c :: s)) (c :: s))
          by (rewrite <- Hr; reflexivity).
        apply nl_run_skipn. }
      pose proof (nl_run_le (c :: s)) as Hlen. rewrite <- Hr in Hlen.
      simpl length in Hlen.
      destruct (IH (skipn r s)) as [IH1 IH2].
      { rewrite length_skipn. lia. }
      rewrite Hrest in IH2. simpl Nat.min in IH2.
      remember (replace_all newlines3_re [NL; NL] (skipn r s)) as out.
      simpl app. split.
      * rewrite !has_newlines3_cons. cbn [nl_run].
        replace (unit_eqb NL NL) with true by reflexivity.
        rewrite IH2. simpl. exact IH1.
      * cbn [nl_run]. replace (unit_eqb NL NL) with true by reflexivity.
        rewrite IH2. lia.
    + apply Nat.leb_gt in E3.
      rewrite replace_all_miss by exact Hhead.
      destruct (IH s) as [IH1 IH2]; [lia|].
      cbn [nl_run] in E3 |- *. rewrite has_newlines3_cons. cbn [nl_run].
      destruct (unit_eqb NL c).
      * rewrite IH2, IH1.
        replace (Nat.min (nl_run s) 2) with (nl_run s) by lia.
        split; [|lia].
        rewrite orb_false_r. apply Nat.leb_gt. lia.
      * rewrite IH1. split; reflexivity.
Qed.

(** The newline collapse is a fixed point of itself. *)
Lemma collapse_newlines_idempotent (s : jsstring) :
  collapse_newlines (collapse_newlines s) = collapse_newlines s.
Proof.
  unfold collapse_newlines at 1.
  apply replace_all_no_match.
  exact (proj1 (@collapse_newlines_spec (length s) s (le_n _))).
Qed.

Lemma collapse_newlines_length (s : jsstring) :
  length (collapse_newlines s) <= length s.
Proof.
  unfold collapse_newlines.
  refine (proj1 (@replace_all_length newlines3_re [NL; NL] _ _ (length s) s _));
    simpl; lia.
Qed.

Lemma font_face_min_len : min_len font_face_re = 12.
Proof. reflexivity. Qed.

Lemma remove_font_faces_shrinks (s : jsstring) :
  has_font_face s = true -> length (remove_font_faces s) < length s.
Proof.
  intros H. unfold remove_font_faces.
  refine (proj2 (@replace_all_length font_face_re [] _ _ (length s) s _) _ H);
    rewrite ?font_face_min_len; simpl; lia.
Qed.

(** A second pass changes the text exactly when the first pass left a
    font-face block behind. *)
Lemma strip_twice_differs (x : jsstring) :
  has_font_face (stripFontFaces x) = true ->
  stripFontFaces (stripFontFaces x) <> stripFontFaces x.
Proof.
  intros H Heq.
  pose proof (remove_font_faces_shrinks _ H) as Hlt.
  pose proof (collapse_newlines_length (remove_font_faces (stripFontFaces x))) as Hle.
  unfold stripFontFaces at 1 in Heq.
  rewrite Heq in Hle. lia.
Qed.

End StripFacts.

(** C2, as amended.  [stripFontFaces] applied twice gives the result of
    applying it once on every input whose first result holds no font-face
    block any more.  (Removing a block can join the text on its two sides
    into a new block, so this does not hold for every input.) *)
Theorem stripFontFaces_idempotent_when_clean (x : jsstring) :
  has_font_face (stripFontFaces x) = false ->
  stripFontFaces (stripFontFaces x) = stripFontFaces x.
Proof.
  intros Hclean.
  unfold stripFontFaces at 1.
  unfold remove_font_faces.
  rewrite RegexFacts.replace_all_no_match by exact Hclean.
  unfold stripFontFaces.
  apply StripFacts.collapse_newlines_idempotent.
Qed.

Lemma stripFontFaces_idempotent_when_clean_witness :
  has_font_face (stripFontFaces (lit "<style>@font-face {src:x}</style>")) = false
  /\ stripFontFaces (stripFontFaces (lit "<style>@font-face {src:x}</style>"))
     = stripFontFaces (lit "<style>@font-face {src:x}</style>").
Proof.
  split.
  - reflexivity.
  - apply stripFontFaces_idempotent_when_clean. reflexivity.
Defined.

(** C2, as stated, fails: the removal of the inner block of
    [@font-@font-face{}face{}] leaves [@font-face{}], which a second pass
    removes. *)
Lemma stripFontFaces_not_idempotent :
  stripFontFaces (stripFontFaces (lit "@font-@font-face{}face{}"))
  <> stripFontFaces (lit "@font-@font-face{}face{}").
Proof. vm_compute. discriminate. Qed.

(* ------------------------------------------------------------------ *)
(** ** The event loop and the guard *)

Module LoopFacts.

Section Timers.

Variable call : Type.

Lemma In_arm (t u : timer) (l : list timer) :
  In u (arm t l) <-> u = t \/ In u l.
Proof.
  induction l as [|v l IH]; simpl.
  - intuition congruence.
  - destruct (due t <? due v)%N; simpl; [intuition congruence|].
    rewrite IH. intuition congruence.
Qed.

(** A timer that is armed and not yet due stays armed when time passes. *)
Lemma advance_keeps (t : timer) (now : N) (w : loop call) :
  In t (armed w) -> (N.max now (clock w) < due t)%N ->
  In t (armed (advance now w)).
Proof.
  intros Hin Hlt. unfold advance. simpl.
  apply filter_In. split; [exact Hin|].
  unfold is_due. apply negb_true_iff, N.leb_gt. exact Hlt.
Qed.

(** A timer that is armed runs its callback once its time has come, and
    is no longer armed then. *)
Lemma advance_fires (t : timer) (now : N) (w : loop call) :
  In t (armed w) -> (due t <= now)%N ->
  In (TimerFired t) (trace (advance now w)) /\ ~ In t (armed (advance now w)).
Proof.
  intros Hin Hle. unfold advance. simpl.
  assert (is_due (N.max now (clock w)) t = true) as Hdue.
  { unfold is_due. apply N.leb_le. lia. }
  split.
  - apply in_or_app. right. apply in_map. apply filter_In. now split.
  - intros H. apply filter_In in H. destruct H as [_ H].
    rewrite Hdue in H. discriminate.
Qed.

Lemma advance_clock (now : N) (w : loop call) :
  clock (advance now w) = N.max now (clock w).
Proof. reflexivity. Qed.

(** What [await withTimeout(operation, ms, label)] does, followed by the
    rest [k] of the handler: the call and the arming of the timer are
    recorded, and the handler goes on at the first of the two to settle. *)
Lemma guarded_step (T B : Type) (c : call) (b : behaviour T) (ms : N)
      (label : jsstring) (k : T -> Async call B) (w : loop call) :
  bind (lift (start c b))
       (fun p => bind (lift (withTimeout p ms label))
                      (fun g => bind (await g) k)) w
  = let t := guard_timer w ms label in
    let w1 := after_arming w c ms label in
    match b with
    | Some (d, Resolves v) =>
        if (d <? ms)%N then k v (advance (clock w + d) w1)
        else Some (Rejects (rejection t), advance (due t) w1)
    | Some (d, Rejects e) =>
        if (d <? ms)%N then Some (Rejects e, advance (clock w + d) w1)
        else Some (Rejects (rejection t), advance (due t) w1)
    | None => Some (Rejects (rejection t), advance (due t) w1)
    end.
Proof.
  unfold bind, lift, start, withTimeout, reject_after, await, race,
    after_arming, guard_timer.
  cbn [fst snd clock armed trace due rejection option_map].
  destruct b as [[d r]|]; cbn [fst snd option_map]; [|reflexivity].
  assert ((clock w + d <? clock w + ms) = (d <? ms))%N as ->.
  { destruct (N.ltb_spec d ms); [apply N.ltb_lt|apply N.ltb_ge]; lia. }
  destruct (d <? ms)%N; destruct r; reflexivity.
Qed.

End Timers.

End LoopFacts.

(** C6, as amended.  For a deadline in setTimeout's range (1 to 2^31-1 ms):
    when the wrapped operation settles before the deadline, awaiting the
    guard yields the operation's own result or failure.  The deadline timer
    is not cancelled: it is still armed when the operation has settled, and
    once the deadline has come its callback runs (its rejection goes
    unnoticed, the guard's promise being settled). *)
Theorem withTimeout_operation_first
        (call T : Type) (at_ : N) (r : settled T) (ms : N) (label : jsstring)
        (w : loop call) :
  (at_ < clock w + ms)%N -> (1 <= ms)%N -> (ms <= TIMEOUT_MAX)%N ->
  let guard := withTimeout (Some (at_, r)) ms label w in
  let t := guard_timer w ms label in
  exists w',
    await (fst guard) (snd guard) = Some (r, w')
    /\ clock w' = N.max at_ (clock w)
    /\ In t (armed w')
    /\ forall later, (due t <= later)%N ->
         In (TimerFired t) (trace (advance later w'))
         /\ ~ In t (armed (advance later w')).
Proof.
  intros Hfirst Hms Hrange guard t.
  unfold guard, withTimeout, reject_after, race, await.
  cbn [fst snd due].
  assert ((at_ <? clock w + ms)%N = true) as -> by (apply N.ltb_lt; lia).
  eexists. split; [reflexivity|].
  assert (In t (armed (advance at_
            {| clock := clock w; armed := arm t (armed w);
               trace := trace w ++ [TimerSet ms t] |}))) as Harmed.
  { apply LoopFacts.advance_keeps; cbn [armed clock].
    - apply LoopFacts.In_arm. now left.
    - unfold t, guard_timer. cbn [due]. lia. }
  split; [reflexivity|]. split; [exact Harmed|].
  intros later Hlater.
  now apply LoopFacts.advance_fires.
Qed.

Lemma withTimeout_operation_first_witness :
  (5 < clock Sample.idle + 30000)%N /\ (1 <= 30000)%N /\ (30000 <= TIMEOUT_MAX)%N
  /\ exists w',
       await (fst (withTimeout (Some (5%N, Resolves 1%N)) 30000 (lit "op") Sample.idle))
             (snd (withTimeout (Some (5%N, Resolves 1%N)) 30000 (lit "op") Sample.idle))
       = Some (Resolves 1%N, w')
       /\ clock w' = N.max 5 (clock Sample.idle)
       /\ In (guard_timer Sample.idle 30000 (lit "op")) (armed w')
       /\ forall later, (due (guard_timer Sample.idle 30000 (lit "op")) <= later)%N ->
            In (TimerFired (guard_timer Sample.idle 30000 (lit "op")))
               (trace (advance later w'))
            /\ ~ In (guard_timer Sample.idle 30000 (lit "op"))
                    (armed (advance later w')).
Proof.
  split; [reflexivity|].
  split; [vm_compute; discriminate|]. split; [vm_compute; discriminate|].
  apply (@withTimeout_operation_first _ N 5%N (Resolves 1%N) 30000%N
           (lit "op") Sample.idle);
    [reflexivity|vm_compute; discriminate|vm_compute; discriminate].
Defined.

(** C6, as stated, fails: an operation that settles after 5 ms under a
    deadline of 30,000 ms leaves the guard's timer armed. *)
Lemma withTimeout_timer_not_cancelled :
  ~ (forall w',
       await (fst (withTimeout (Some (5%N, Resolves 1%N)) 30000 (lit "op") Sample.idle))
             (snd (withTimeout (Some (5%N, Resolves 1%N)) 30000 (lit "op") Sample.idle))
       = Some (Resolves 1%N, w') ->
       ~ In (guard_timer Sample.idle 30000 (lit "op")) (armed w')).
Proof.
  intros H.
  refine (H _ eq_refl _).
  left. reflexivity.
Qed.

(* ------------------------------------------------------------------ *)
(** ** Traces of the handlers *)

Module TraceFacts.

Section Traces.

Variables Diagram RenderOptions : Type.

Local Abbreviation call := (@call Diagram RenderOptions).

Lemma added_app (w w' : loop call) (evs : list (event call)) :
  trace w' = trace w ++ evs -> added w w' = evs.
Proof.
  intros H. unfold added. rewrite H.
  rewrite skipn_app, skipn_all, Nat.sub_diag. reflexivity.
Qed.

Lemma through_guard_app (evs evs' : list (event call)) :
  through_guard evs = true ->
  through_guard (evs ++ evs') = through_guard evs'.
Proof.
  induction evs as [|ev evs IH]; intros H; [reflexivity|].
  destruct ev as [c|ms t|t]; cbn [through_guard app] in *; auto.
  destruct (is_facade c); auto.
  destruct evs as [|ev' evs]; [discriminate|].
  apply andb_true_iff in H. destruct H as [Hg Hrest].
  cbn [app]. rewrite Hg. cbn [andb]. now apply IH.
Qed.

Lemma guarded_run_refl (w : loop call) : guarded_run w w.
Proof. exists []. now rewrite app_nil_r. Qed.

Lemma guarded_run_trans (w1 w2 w3 : loop call) :
  guarded_run w1 w2 -> guarded_run w2 w3 -> guarded_run w1 w3.
Proof.
  intros [e1 [H1 G1]] [e2 [H2 G2]]. exists (e1 ++ e2). split.
  - now rewrite H2, H1, app_assoc.
  - now rewrite through_guard_app.
Qed.

Lemma through_guard_fired (l : list timer) :
  through_guard (map (@TimerFired call) l) = true.
Proof. induction l; simpl; auto. Qed.

Lemma guarded_run_advance (now : N) (w : loop call) :
  guarded_run w (advance now w).
Proof. eexists. split; [reflexivity|]. apply through_guard_fired. Qed.

Lemma guarded_run_arming (w : loop call) (c : call) (label : jsstring) :
  guards c (TimerSet RENDER_TIMEOUT_MS (guard_timer w RENDER_TIMEOUT_MS label)) = true ->
  guarded_run w (after_arming w c RENDER_TIMEOUT_MS label).
Proof.
  intros Hg. eexists. split.
  - unfold after_arming. cbn [trace]. rewrite <- app_assoc. reflexivity.
  - cbn [app through_guard]. rewrite Hg. destruct (is_facade c); reflexivity.
Qed.

Lemma guards_compile (w : loop call) source request :
  guards (CompileCall source request : call)
         (TimerSet RENDER_TIMEOUT_MS
            (guard_timer w RENDER_TIMEOUT_MS (lit "d2_render compile"))) = true.
Proof. reflexivity. Qed.

Lemma guards_render (w : loop call) d o :
  guards (RenderCall d o : call)
         (TimerSet RENDER_TIMEOUT_MS
            (guard_timer w RENDER_TIMEOUT_MS (lit "d2_render render"))) = true.
Proof. reflexivity. Qed.

(** One guarded await of [d2_render], for whatever time it ends at. *)
Lemma guarded_run_compile (w : loop call) source request (now : N) :
  guarded_run w (advance now (after_arming w (CompileCall source request)
                                 RENDER_TIMEOUT_MS (lit "d2_render compile"))).
Proof.
  eapply guarded_run_trans; [|apply guarded_run_advance].
  apply guarded_run_arming, guards_compile.
Qed.

Lemma guarded_run_render (w : loop call) d o (now : N) :
  guarded_run w (advance now (after_arming w (RenderCall d o)
                                 RENDER_TIMEOUT_MS (lit "d2_render render"))).
Proof.
  eapply guarded_run_trans; [|apply guarded_run_advance].
  apply guarded_run_arming, guards_render.
Qed.

Lemma guarded_run_added (w w' : loop call) :
  guarded_run w w' -> through_guard (added w w') = true.
Proof. intros [evs [H G]]. now rewrite (@added_app w w' evs H). Qed.

(** [d2_render] always settles, with a result and never with a rejection,
    and every call it makes goes through the guard. *)
Lemma d2_render_guarded (d2 : D2 Diagram RenderOptions) (params : RenderInput)
      (w : loop call) :
  exists r w',
    d2_render d2 params w = Some (Resolves r, w') /\ guarded_run w w'.
Proof.
  unfold d2_render, try_catch.
  rewrite LoopFacts.guarded_step. cbv zeta.
  destruct (compile d2 _ _) as [[d [v|e]]|].
  - destruct (d <? RENDER_TIMEOUT_MS)%N.
    + rewrite LoopFacts.guarded_step. cbv zeta.
      assert (forall now,
                 guarded_run w
                   (advance now
                      (after_arming
                         (advance (clock w + d)
                            (after_arming w
                               (CompileCall (d2_code params)
                                  (Some {| options := compileOptions_of params |}))
                               RENDER_TIMEOUT_MS (lit "d2_render compile")))
                         (RenderCall (diagram v) (renderOptions v))
                         RENDER_TIMEOUT_MS (lit "d2_render render")))) as Hrun.
      { intros now. eapply guarded_run_trans;
          [apply guarded_run_compile|apply guarded_run_render]. }
      destruct (render d2 _ _) as [[d' [svg|e]]|].
      * destruct (d' <? RENDER_TIMEOUT_MS)%N.
        -- unfold ret. destruct (CHARACTER_LIMIT <? _)%N;
             do 2 eexists; (split; [reflexivity|apply Hrun]).
        -- do 2 eexists. split; [reflexivity|apply Hrun].
      * destruct (d' <? RENDER_TIMEOUT_MS)%N;
          do 2 eexists; (split; [reflexivity|apply Hrun]).
      * do 2 eexists. split; [reflexivity|apply Hrun].
    + do 2 eexists. split; [reflexivity|apply guarded_run_compile].
  - destruct (d <? RENDER_TIMEOUT_MS)%N;
      do 2 eexists; (split; [reflexivity|apply guarded_run_compile]).
  - do 2 eexists. split; [reflexivity|apply guarded_run_compile].
Qed.

(** What a run of [d2_validate] is: the compiler is called once, on the
    source alone, and the handler waits for it without a guard. *)
Lemma d2_validate_run (JSON_stringify : ValidateOutput -> jsstring)
      (d2 : D2 Diagram RenderOptions) (params : Validate.ValidateInput) (w : loop call) :
  d2_validate JSON_stringify d2 params w =
  let called :=
    {| clock := clock w; armed := armed w;
       trace := trace w ++ [Called (CompileCall (Validate.d2_code params) None)] |} in
  match compile d2 (Validate.d2_code params) None with
  | Some (d, r) =>
      let output :=
        match r with
        | Resolves _ => {| valid := true; error := None |}
        | Rejects e => {| valid := false; error := Some (error_text e) |}
        end in
      Some (Resolves {| isError := false;
                        text := JSON_stringify output;
                        structuredContent := Some output |},
            advance (clock w + d) called)
  | None => None
  end.
Proof.
  unfold d2_validate, try_catch, bind, lift, start, await, ret.
  destruct (compile d2 _ _) as [[d [v|e]]|]; reflexivity.
Qed.

Lemma existsb_fired (l : list timer) :
  existsb (@is_TimerSet Diagram RenderOptions) (map TimerFired l) = false.
Proof. induction l; simpl; auto. Qed.

(** No timer is set during a run of [d2_validate]. *)
Lemma d2_validate_sets_no_timer (JSON_stringify : ValidateOutput -> jsstring)
      (d2 : D2 Diagram RenderOptions) (params : Validate.ValidateInput)
      (w w' : loop call) (r : settled ToolResult) :
  d2_validate JSON_stringify d2 params w = Some (r, w') ->
  added w w' = Called (CompileCall (Validate.d2_code params) None)
                 :: skipn 1 (added w w')
  /\ existsb (@is_TimerSet _ _) (added w w') = false.
Proof.
  rewrite d2_validate_run. cbv zeta.
  destruct (compile d2 _ _) as [[d s]|]; [|discriminate].
  intros H. injection H as _ <-.
  erewrite added_app.
  2:{ unfold advance. cbn [trace armed clock]. rewrite <- app_assoc. reflexivity. }
  cbn [app skipn existsb is_TimerSet orb]. split; [reflexivity|].
  apply existsb_fired.
Qed.

End Traces.

End TraceFacts.

(** C1, as amended.  In [d2_render] every call of the Compiler Facade, the
    compile and the render, is passed to the Timeout Guard with the deadline
    of 30,000 ms and a label that ends in the phase; the handler therefore
    always settles.  The compile of [d2_validate] is called directly: no
    timer is set during its run. *)
Theorem render_calls_through_guard
        (Diagram RenderOptions : Type) (d2 : D2 Diagram RenderOptions)
        (JSON_stringify : ValidateOutput -> jsstring)
        (params : RenderInput) (source : Validate.ValidateInput)
        (w : loop (@call Diagram RenderOptions)) :
  (exists r w',
      d2_render d2 params w = Some (Resolves r, w')
      /\ through_guard (added w w') = true)
  /\ (forall r w',
        d2_validate JSON_stringify d2 source w = Some (r, w') ->
        existsb (@is_TimerSet _ _) (added w w') = false).
Proof.
  split.
  - destruct (TraceFacts.d2_render_guarded d2 params w) as [r [w' [Hrun Hg]]].
    exists r, w'. split; [exact Hrun|].
    now apply TraceFacts.guarded_run_added.
  - intros r w' Hrun.
    eapply TraceFacts.d2_validate_sets_no_timer. exact Hrun.
Qed.

(** C1, as stated, fails for [d2_validate]: its compile is a facade call
    that no guard's timer follows. *)
Lemma validate_compile_unguarded :
  exists r w',
    d2_validate Sample.stringify (Sample.quick (lit "<svg/>"))
                (Sample.source_of (lit "a -> b")) Sample.idle = Some (r, w')
    /\ through_guard (added Sample.idle w') = false.
Proof. do 2 eexists. split; reflexivity. Qed.

(** Without a guard, [d2_validate] waits as long as the compiler does. *)
Lemma validate_waits_for_compile :
  d2_validate Sample.stringify Sample.hanging
              (Sample.source_of (lit "a -> b")) Sample.idle = None.
Proof. reflexivity. Qed.

(* ------------------------------------------------------------------ *)
(** ** Strings and numbers *)

Module JsFacts.

Lemma str_eqb_eq (a b : jsstring) : str_eqb a b = true <-> a = b.
Proof.
  revert b. induction a as [|x a IH]; intros [|y b]; simpl;
    try (split; [discriminate|discriminate]); [tauto|].
  unfold unit_eqb. rewrite andb_true_iff, N.eqb_eq, IH.
  split; [intros [-> ->]; reflexivity|intros H; injection H; auto].
Qed.

Lemma starts_with_app (needle a b : jsstring) :
  starts_with needle a = true -> starts_with needle (a ++ b) = true.
Proof.
  revert a. induction needle as [|x n IH]; intros a H; [reflexivity|].
  destruct a as [|y a]; [discriminate|].
  simpl in *. apply andb_true_iff in H. destruct H as [-> H].
  now apply IH.
Qed.

Lemma includes_unfold (hay needle : jsstring) :
  includes hay needle =
  starts_with needle hay
  || match hay with [] => false | _ :: h' => includes h' needle end.
Proof. destruct hay; reflexivity. Qed.

Lemma includes_app_l (a b needle : jsstring) :
  includes a needle = true -> includes (a ++ b) needle = true.
Proof.
  induction a as [|x a IH]; intros H.
  - rewrite includes_unfold in H. rewrite orb_false_r in H.
    destruct needle; [|discriminate]. now destruct b.
  - rewrite includes_unfold in H. cbn [app]. rewrite includes_unfold.
    apply orb_true_iff in H. apply orb_true_iff. destruct H as [H|H].
    + left. now apply (starts_with_app _ (x :: a) b).
    + right. now apply IH.
Qed.

Lemma includes_app_r (a b needle : jsstring) :
  includes b needle = true -> includes (a ++ b) needle = true.
Proof.
  intros H. induction a as [|x a IH]; [exact H|].
  cbn [app]. rewrite includes_unfold, IH. apply orb_true_r.
Qed.

Lemma digits_from_length (fuel : nat) :
  forall n acc, length (digits_from fuel n acc) <= fuel + length acc.
Proof.
  induction fuel as [|f IH]; intros n acc; simpl; [lia|].
  destruct (n / 10 =? 0)%N; simpl; [lia|].
  specialize (IH (n / 10)%N ((48 + n mod 10)%N :: acc)). simpl in IH. lia.
Qed.

(** A number has no more decimal digits than bits. *)
Lemma number_toString_length (n : N) :
  length (number_toString n) <= S (N.to_nat (N.log2 n)).
Proof.
  unfold number_toString.
  pose proof (digits_from_length (S (N.to_nat (N.log2 n))) n []) as H.
  change (length (@nil code_unit)) with 0 in H. lia.
Qed.

Lemma digits_from_value (fuel : nat) :
  forall n acc, (n < 2 ^ N.of_nat fuel)%N ->
    digits_value (digits_from fuel n acc)
    = fold_left (fun a d => (10 * a + (d - 48))%N) acc n.
Proof.
  unfold digits_value.
  induction fuel as [|f IH]; intros n acc Hn.
  - simpl in *. assert (n = 0%N) as -> by lia. reflexivity.
  - cbn [digits_from].
    assert (n = 10 * (n / 10) + n mod 10)%N as Hdiv
      by (apply N.div_mod; discriminate).
    destruct (n / 10 =? 0)%N eqn:E.
    + apply N.eqb_eq in E. cbn [fold_left]. f_equal.
      rewrite E in Hdiv. generalize dependent (n mod 10)%N. intros; lia.
    + apply N.eqb_neq in E. rewrite IH.
      * cbn [fold_left]. f_equal.
        generalize dependent (n mod 10)%N.
        generalize dependent (n / 10)%N. intros; lia.
      * rewrite Nat2N.inj_succ, N.pow_succ_r' in Hn.
        apply N.Div0.div_lt_upper_bound.
        generalize dependent (2 ^ N.of_nat f)%N. intros; lia.
Qed.

(** [number_toString] writes the decimal digits of its argument. *)
Lemma number_toString_value (n : N) :
  digits_value (number_toString n) = n.
Proof.
  unfold number_toString. rewrite digits_from_value; [reflexivity|].
  rewrite Nat2N.inj_succ, N2Nat.id.
  destruct n as [|p]; [reflexivity|].
  apply N.log2_spec. reflexivity.
Qed.

(** Beyond a few hundred, a number exceeds its bit length by a wide
    margin. *)
Lemma log2_margin (n : N) :
  (400 <= n)%N -> N.to_nat (N.log2 n) + 190 < N.to_nat n.
Proof.
  intros Hn.
  assert (n = 2 * (n / 2) + n mod 2)%N as Hdiv
    by (apply N.div_mod; discriminate).
  assert (n mod 2 < 2)%N as Hmod by (apply N.mod_lt; discriminate).
  assert (N.log2 n = N.succ (N.log2 (n / 2))) as Hlog.
  { rewrite Hdiv at 1. revert Hdiv Hmod.
    generalize (n mod 2)%N, (n / 2)%N. intros r h Hdiv Hmod.
    assert (0 < h)%N as Hh by lia.
    assert (r = 0 \/ r = 1)%N as [->| ->] by lia.
    - rewrite N.add_0_r. now apply N.log2_double.
    - now apply N.log2_succ_double. }
  assert (0 < n / 2 -> N.log2 (n / 2) < n / 2)%N as Hlin
    by apply N.log2_lt_lin.
  revert Hdiv Hmod Hlog Hlin.
  generalize (N.log2 n), (N.log2 (n / 2)), (n mod 2)%N, (n / 2)%N.
  intros; lia.
Qed.

End JsFacts.

(* ------------------------------------------------------------------ *)
(** ** [d2_validate] *)




(** C10.  A run of [d2_validate] is determined by what the compiler does on
    the source text alone, without compile options: the compiler is called
    once, as [compile(source)], and the verdict is [valid: true] exactly when
    that call succeeds.  Two compilers that agree on [compile(source)] give
    the same run, whatever they do under a layout, a theme or any other
    option. *)
Theorem validate_uses_default_options
        (Diagram RenderOptions : Type) (JSON_stringify : ValidateOutput -> jsstring)
        (d2 d2' : D2 Diagram RenderOptions) (params : Validate.ValidateInput)
        (w : loop (@call Diagram RenderOptions)) :
  d2_validate JSON_stringify d2 params w
  = match compile d2 (Validate.d2_code params) None with
    | Some (d, r) =>
        let output :=
          match r with
          | Resolves _ => {| valid := true; error := None |}
          | Rejects e => {| valid := false; error := Some (error_text e) |}
          end in
        Some (Resolves {| isError := false;
                          text := JSON_stringify output;
                          structuredContent := Some output |},
              advance (clock w + d)
                {| clock := clock w; armed := armed w;
                   trace := trace w
                     ++ [Called (CompileCall (Validate.d2_code params) None)] |})
    | None => None
    end
  /\ (compile d2 (Validate.d2_code params) None
      = compile d2' (Validate.d2_code params) None ->
      d2_validate JSON_stringify d2 params w
      = d2_validate JSON_stringify d2' params w).
Proof.
  split.
  - apply TraceFacts.d2_validate_run.
  - intros Hsame. rewrite !TraceFacts.d2_validate_run. cbv zeta.
    rewrite Hsame. reflexivity.
Qed.

Lemma validate_uses_default_options_witness :
  d2_validate Sample.stringify (Sample.quick (lit "<svg/>"))
              (Sample.source_of (lit "a -> b")) Sample.idle
  = d2_validate Sample.stringify (Sample.elk_hangs (lit "<svg/>"))
                (Sample.source_of (lit "a -> b")) Sample.idle.
Proof.
  apply (proj2 (validate_uses_default_options Sample.stringify
                  (Sample.quick (lit "<svg/>")) (Sample.elk_hangs (lit "<svg/>"))
                  (Sample.source_of (lit "a -> b")) Sample.idle)).
  reflexivity.
Defined.

(* ------------------------------------------------------------------ *)
(** ** [d2_render] *)

Module RenderFacts.

Section Render.

Variables Diagram RenderOptions : Type.
Variable d2 : D2 Diagram RenderOptions.
Variable params : RenderInput.
Variable w : loop (@call Diagram RenderOptions).

(** The run of [d2_render] when both phases succeed within their
    deadlines. *)
Lemma d2_render_rendered (dc dr : N) (result : CompileResponse Diagram RenderOptions)
      (svg : jsstring) :
  compile d2 (d2_code params) (Some {| options := compileOptions_of params |})
    = Some (dc, Resolves result) ->
  (dc < RENDER_TIMEOUT_MS)%N ->
  render d2 (diagram result) (renderOptions result) = Some (dr, Resolves svg) ->
  (dr < RENDER_TIMEOUT_MS)%N ->
  exists w',
    d2_render d2 params w
    = Some (Resolves
              (if (CHARACTER_LIMIT <? js_length (postprocess params svg))%N
               then {| isError := true;
                       text := size_limit_message (js_length (postprocess params svg));
                       structuredContent := None |}
               else {| isError := false;
                       text := postprocess params svg;
                       structuredContent := None |}),
            w').
Proof.
  intros Hc Hdc Hr Hdr.
  apply N.ltb_lt in Hdc, Hdr.
  unfold d2_render, try_catch.
  rewrite LoopFacts.guarded_step. cbv zeta. rewrite Hc, Hdc.
  rewrite LoopFacts.guarded_step. cbv zeta. rewrite Hr, Hdr.
  unfold ret.
  destruct (CHARACTER_LIMIT <? _)%N; eexists; reflexivity.
Qed.

End Render.

(** The size-limit message is far shorter than any text it reports. *)
Lemma size_limit_message_short (len : N) :
  (CHARACTER_LIMIT < len)%N ->
  length (size_limit_message len) < N.to_nat len.
Proof.
  intros Hlen. unfold size_limit_message.
  rewrite !length_app.
  pose proof (JsFacts.number_toString_length len) as Hdigits.
  assert (400 <= len)%N as Hbig by (unfold CHARACTER_LIMIT in Hlen; lia).
  pose proof (JsFacts.log2_margin Hbig) as Hmargin.
  change (length (number_toString CHARACTER_LIMIT)) with 6.
  change (length (lit "Error: Rendered output is too large (")) with 37.
  change (length (lit " chars, limit ")) with 14.
  change (length (lit "). ")) with 3.
  change (length (lit "Simplify your diagram, use ascii=true, or use skip_fonts=true for a smaller SVG output.")) with 87.
  lia.
Qed.

Lemma starts_with_refl (s : jsstring) : starts_with s s = true.
Proof.
  induction s as [|c s IH]; [reflexivity|].
  simpl. unfold unit_eqb. now rewrite N.eqb_refl.
Qed.

Lemma includes_refl (s : jsstring) : includes s s = true.
Proof. rewrite JsFacts.includes_unfold, starts_with_refl. reflexivity. Qed.

(** The message names the length found and the limit, and it suggests
    [ascii=true] and [skip_fonts=true]. *)
Lemma size_limit_message_says (len : N) :
  includes (size_limit_message len) (lit "too large") = true
  /\ includes (size_limit_message len) (number_toString len ++ lit " chars") = true
  /\ includes (size_limit_message len) (lit "limit 200000") = true
  /\ includes (size_limit_message len) (lit "use ascii=true") = true
  /\ includes (size_limit_message len) (lit "use skip_fonts=true") = true.
Proof.
  unfold size_limit_message.
  split; [|split; [|split; [|split]]].
  - apply JsFacts.includes_app_l. reflexivity.
  - apply JsFacts.includes_app_r.
    change (lit " chars, limit ") with (lit " chars" ++ lit ", limit ").
    rewrite <- !app_assoc. rewrite (app_assoc (number_toString len)).
    apply JsFacts.includes_app_l, includes_refl.
  - do 2 apply JsFacts.includes_app_r.
    rewrite app_assoc. apply JsFacts.includes_app_l. reflexivity.
  - do 5 apply JsFacts.includes_app_r. reflexivity.
  - do 5 apply JsFacts.includes_app_r. reflexivity.
Qed.

End RenderFacts.

(** C4.  When both phases succeed and the text left after post-processing
    is longer than 200,000 code units, [d2_render] returns an error result
    whose text is the size-limit message: it reports the length and the
    limit and suggests [ascii=true] and [skip_fonts=true].  The text is not
    the oversized output, which is returned nowhere in the result. *)
Theorem render_size_limit
        (Diagram RenderOptions : Type) (d2 : D2 Diagram RenderOptions)
        (params : RenderInput) (w : loop (@call Diagram RenderOptions))
        (dc dr : N) (result : CompileResponse Diagram RenderOptions)
        (svg : jsstring) :
  compile d2 (d2_code params) (Some {| options := compileOptions_of params |})
    = Some (dc, Resolves result) ->
  (dc < RENDER_TIMEOUT_MS)%N ->
  render d2 (diagram result) (renderOptions result) = Some (dr, Resolves svg) ->
  (dr < RENDER_TIMEOUT_MS)%N ->
  (CHARACTER_LIMIT < js_length (postprocess params svg))%N ->
  exists r w',
    d2_render d2 params w = Some (Resolves r, w')
    /\ isError r = true
    /\ structuredContent r = None
    /\ text r = size_limit_message (js_length (postprocess params svg))
    /\ text r <> postprocess params svg
    /\ includes (text r) (lit "too large") = true
    /\ includes (text r) (lit "use ascii=true") = true
    /\ includes (text r) (lit "use skip_fonts=true") = true.
Proof.
  intros Hc Hdc Hr Hdr Hover.
  destruct (RenderFacts.d2_render_rendered d2 params w Hc Hdc Hr Hdr) as [w' Hrun].
  apply N.ltb_lt in Hover as Hover'. rewrite Hover' in Hrun.
  do 2 eexists. split; [exact Hrun|]. cbn [isError structuredContent text].
  destruct (RenderFacts.size_limit_message_says (js_length (postprocess params svg)))
    as (Hlarge & _ & _ & Hascii & Hfonts).
  split; [reflexivity|]. split; [reflexivity|]. split; [reflexivity|].
  split; [|now repeat split].
  intros Hsame.
  pose proof (RenderFacts.size_limit_message_short Hover) as Hshort.
  rewrite Hsame in Hshort. unfold js_length in Hshort.
  rewrite Nat2N.id in Hshort. lia.
Qed.

Lemma render_size_limit_witness :
  (CHARACTER_LIMIT < js_length
     (postprocess (Sample.plain (lit "a -> b")) Sample.over_limit))%N
  /\ exists r w',
    d2_render (Sample.quick Sample.over_limit) (Sample.plain (lit "a -> b")) Sample.idle
    = Some (Resolves r, w')
    /\ isError r = true
    /\ structuredContent r = None
    /\ text r = size_limit_message (js_length Sample.over_limit)
    /\ text r <> Sample.over_limit
    /\ includes (text r) (lit "too large") = true
    /\ includes (text r) (lit "use ascii=true") = true
    /\ includes (text r) (lit "use skip_fonts=true") = true.
Proof.
  split; [reflexivity|].
  apply (@render_size_limit unit unit (Sample.quick Sample.over_limit)
           (Sample.plain (lit "a -> b")) Sample.idle 5%N 7%N Sample.compiled
           Sample.over_limit); reflexivity.
Defined.

(** C9.  The comparison with the limit is strict: a text of exactly 200,000
    code units is returned as it is, and the result is an error exactly when
    the text is longer than that. *)
Theorem render_limit_is_strict
        (Diagram RenderOptions : Type) (d2 : D2 Diagram RenderOptions)
        (params : RenderInput) (w : loop (@call Diagram RenderOptions))
        (dc dr : N) (result : CompileResponse Diagram RenderOptions)
        (svg : jsstring) :
  compile d2 (d2_code params) (Some {| options := compileOptions_of params |})
    = Some (dc, Resolves result) ->
  (dc < RENDER_TIMEOUT_MS)%N ->
  render d2 (diagram result) (renderOptions result) = Some (dr, Resolves svg) ->
  (dr < RENDER_TIMEOUT_MS)%N ->
  exists r w',
    d2_render d2 params w = Some (Resolves r, w')
    /\ (js_length (postprocess params svg) = 200000%N ->
        r = {| isError := false;
               text := postprocess params svg;
               structuredContent := None |})
    /\ (isError r = true <-> (200000 < js_length (postprocess params svg))%N).
Proof.
  intros Hc Hdc Hr Hdr.
  destruct (RenderFacts.d2_render_rendered d2 params w Hc Hdc Hr Hdr) as [w' Hrun].
  do 2 eexists. split; [exact Hrun|].
  change 200000%N with CHARACTER_LIMIT.
  destruct (N.ltb_spec CHARACTER_LIMIT (js_length (postprocess params svg)))
    as [Hover|Hfits]; cbn [isError].
  - split; [intros Heq; rewrite Heq in Hover; lia|tauto].
  - split; [reflexivity|]. split; [discriminate|intros Hover; lia].
Qed.

Lemma render_limit_is_strict_witness :
  js_length (postprocess (Sample.plain (lit "a -> b")) Sample.at_limit) = 200000%N
  /\ exists r w',
    d2_render (Sample.quick Sample.at_limit) (Sample.plain (lit "a -> b")) Sample.idle
    = Some (Resolves r, w')
    /\ (js_length Sample.at_limit = 200000%N ->
        r = {| isError := false; text := Sample.at_limit; structuredContent := None |})
    /\ (isError r = true <-> (200000 < js_length Sample.at_limit)%N).
Proof.
  split; [reflexivity|].
  apply (@render_limit_is_strict unit unit (Sample.quick Sample.at_limit)
           (Sample.plain (lit "a -> b")) Sample.idle 5%N 7%N Sample.compiled
           Sample.at_limit); reflexivity.
Defined.

(** Font stripping is applied on request only: without a true [skip_fonts]
    the text of the renderer is left as it is. *)
Lemma postprocess_on_request (params : RenderInput) (svg : jsstring) :
  skip_fonts params <> Some true -> postprocess params svg = svg.
Proof.
  unfold postprocess, truthy_flag.
  destruct (skip_fonts params) as [[|]|]; congruence.
Qed.

(** With [skip_fonts: true] the text is stripped, whatever [ascii] says. *)
Lemma postprocess_ignores_ascii (params : RenderInput) (svg : jsstring) :
  skip_fonts params = Some true -> postprocess params svg = stripFontFaces svg.
Proof. unfold postprocess. now intros ->. Qed.

(** C5: the code at the failing input.  With [ascii: true] and
    [skip_fonts: true] the plain-text art of the renderer is passed through
    [stripFontFaces], and the text returned differs from the art. *)
Theorem render_strips_ascii_output :
  exists w',
    d2_render (Sample.quick Sample.ascii_art)
              (Sample.ascii_stripped (lit "x: '@font-face {a}'")) Sample.idle
    = Some (Resolves {| isError := false;
                        text := stripFontFaces Sample.ascii_art;
                        structuredContent := None |}, w')
    /\ stripFontFaces Sample.ascii_art <> Sample.ascii_art
    /\ stripFontFaces Sample.ascii_art
       = lit "+----------------+" ++ [NL]
           ++ lit "|  |" ++ [NL]
           ++ lit "+----------------+" ++ [NL].
Proof.
  eexists. split; [reflexivity|].
  split; [vm_compute; discriminate|reflexivity].
Qed.

(* ------------------------------------------------------------------ *)
(** ** The formatter bridge and [d2_format] *)

Module FormatFacts.

Lemma trimStart_spaces (a rest : jsstring) :
  forallb is_space a = true -> trimStart (a ++ rest) = trimStart rest.
Proof.
  induction a as [|c a IH]; intros H; [reflexivity|].
  simpl in H. apply andb_true_iff in H. destruct H as [Hc Ha].
  cbn [app trimStart]. rewrite Hc. now apply IH.
Qed.

Lemma forallb_rev (f : code_unit -> bool) (l : jsstring) :
  forallb f (rev l) = forallb f l.
Proof.
  induction l as [|c l IH]; [reflexivity|].
  cbn [rev forallb]. rewrite forallb_app, IH. cbn [forallb].
  rewrite andb_true_r. apply andb_comm.
Qed.

Lemma trimStart_solid (c : code_unit) (s : jsstring) :
  is_space c = false -> trimStart (c :: s) = c :: s.
Proof. intros H. cbn [trimStart]. now rewrite H. Qed.

(** [trim] takes the white space off both ends of a text and leaves what
    lies between its first and its last other character. *)
Lemma trim_spec (a b middle : jsstring) (first last : code_unit) :
  forallb is_space a = true -> forallb is_space b = true ->
  is_space first = false -> is_space last = false ->
  trim (a ++ (first :: middle ++ [last]) ++ b) = first :: middle ++ [last].
Proof.
  intros Ha Hb Hfirst Hlast.
  unfold trim, trimEnd.
  rewrite trimStart_spaces by exact Ha.
  cbn [app]. rewrite trimStart_solid by exact Hfirst.
  replace (first :: (middle ++ [last]) ++ b)
    with ((first :: middle) ++ last :: b)
    by (cbn [app]; now rewrite <- app_assoc).
  rewrite rev_app_distr. cbn [rev]. rewrite <- app_assoc. cbn [app].
  rewrite trimStart_spaces by (rewrite forallb_rev; exact Hb).
  rewrite trimStart_solid by exact Hlast.
  cbn [rev]. rewrite rev_app_distr, rev_involutive. reflexivity.
Qed.

Lemma trim_blank (a : jsstring) :
  forallb is_space a = true -> trim a = [].
Proof.
  intros Ha. unfold trim, trimEnd.
  rewrite <- (app_nil_r a), trimStart_spaces by exact Ha. reflexivity.
Qed.





Lemma is_ENOENT_iff (err : ErrorObject) :
  is_ENOENT err = true <-> code err = Some (lit "ENOENT").
Proof.
  unfold is_ENOENT. destruct (code err) as [c|].
  - rewrite JsFacts.str_eqb_eq. split; [now intros ->|congruence].
  - split; discriminate.
Qed.

End FormatFacts.

(** C7.  When the child cannot be launched, the promise of [runD2Binary] is
    rejected: for the code [ENOENT], with a new error whose message names
    https://d2lang.com and the [D2_PATH] setting; for every other launch
    failure, with the error of the child as it is. *)
Theorem launch_failure_mapping
        (Diagram RenderOptions : Type) (D2_PATH : option jsstring)
        (spawn : jsstring -> list jsstring -> jsstring -> option (N * child_event))
        (args : list jsstring) (stdin : jsstring)
        (w : loop (@call Diagram RenderOptions)) (d : N) (err : ErrorObject) :
  spawn (js_or (match D2_PATH with Some v => v | None => [] end) (lit "d2"))
        args stdin = Some (d, ChildError err) ->
  (code err = Some (lit "ENOENT") ->
   fst (runD2Binary D2_PATH spawn args stdin w)
   = Some ((clock w + d)%N, Rejects (new_Error binary_not_found)))
  /\ (code err <> Some (lit "ENOENT") ->
      fst (runD2Binary D2_PATH spawn args stdin w)
      = Some ((clock w + d)%N, Rejects (ThrownError err)))
  /\ includes binary_not_found (lit "Install d2 from https://d2lang.com") = true
  /\ includes binary_not_found (lit "set D2_PATH env var") = true.
Proof.
  intros Hspawn.
  unfold runD2Binary, start. cbn [fst]. rewrite Hspawn.
  cbn [option_map fst snd on_child_event].
  split; [|split; [|split; reflexivity]].
  - intros Hcode. apply FormatFacts.is_ENOENT_iff in Hcode. now rewrite Hcode.
  - intros Hcode. destruct (is_ENOENT err) eqn:E; [|reflexivity].
    apply FormatFacts.is_ENOENT_iff in E. contradiction.
Qed.

Lemma launch_failure_mapping_witness :
  fst (@runD2Binary unit unit (Some (lit "/nowhere/d2")) (Sample.no_child Sample.ENOENT)
                    [lit "fmt"; lit "-"] (lit "a->b") Sample.idle)
  = Some (1%N, Rejects (new_Error binary_not_found))
  /\ fst (@runD2Binary unit unit None (Sample.no_child Sample.EACCES)
                       [lit "fmt"; lit "-"] (lit "a->b") Sample.idle)
     = Some (1%N, Rejects (ThrownError Sample.EACCES)).
Proof.
  split.
  - apply (proj1 (@launch_failure_mapping unit unit (Some (lit "/nowhere/d2"))
                    (Sample.no_child Sample.ENOENT) [lit "fmt"; lit "-"]
                    (lit "a->b") Sample.idle 1%N Sample.ENOENT eq_refl)).
    reflexivity.
  - apply (proj1 (proj2 (@launch_failure_mapping unit unit None
                    (Sample.no_child Sample.EACCES) [lit "fmt"; lit "-"]
                    (lit "a->b") Sample.idle 1%N Sample.EACCES eq_refl))).
    discriminate.
Defined.

(** [d2_format] turns the launch failure into an error result; for a
    missing executable its text names the [D2_PATH] setting. *)
Lemma format_reports_missing_binary :
  exists w',
    @d2_format unit unit (Some (lit "/nowhere/d2")) (Sample.no_child Sample.ENOENT)
               (Sample.code_of (lit "a->b")) Sample.idle
    = Some (Resolves {| isError := true;
                        text := lit "Error: " ++ binary_not_found;
                        structuredContent := None |}, w').
Proof. vm_compute. eexists. reflexivity. Qed.




Example format_trims_stderr :
  exists w',
    @d2_format unit unit None
               (Sample.child [] [lit " err: "; lit "bad" ++ [NL]] (Some 1%Z))
               (Sample.code_of (lit "a -> {")) Sample.idle
    = Some (Resolves {| isError := true;
                        text := lit "Error formatting D2 code: err: bad";
                        structuredContent := None |}, w').
Proof. vm_compute. eexists. reflexivity. Qed.

Example format_unknown_error :
  exists w',
    @d2_format unit unit None (Sample.child [] [] None)
               (Sample.code_of (lit "a -> b")) Sample.idle
    = Some (Resolves {| isError := true;
                        text := lit "Error formatting D2 code: Unknown error";
                        structuredContent := None |}, w').
Proof. vm_compute. eexists. reflexivity. Qed.

(* ------------------------------------------------------------------ *)
(** ** The definitions at work *)

Example strip_one_block :
  stripFontFaces (lit "<style>@font-face {src:x}</style>") = lit "<style></style>".
Proof. reflexivity. Qed.

Example strip_collapses_newlines :
  stripFontFaces (NL :: NL :: NL :: NL :: lit "a") = NL :: NL :: lit "a".
Proof. reflexivity. Qed.

Example strip_keeps_nested_braces :
  stripFontFaces (lit "@font-face {a{b}c}") = lit "@font-face {a{b}c}".
Proof. reflexivity. Qed.

Example timeout_message_compile :
  timeout_message (lit "d2_render compile") RENDER_TIMEOUT_MS
  = lit "d2_render compile timed out after 30s. If you used layout-engine: elk, switch to dagre (or remove the layout setting entirely) "
      ++ [EM_DASH] ++ lit " ELK is extremely slow in WASM.".
Proof. reflexivity. Qed.

(** A compile that never settles is given up after 30 s, and the error
    result names the phase and the deadline. *)
Example render_gives_up_on_compile :
  exists w',
    d2_render Sample.hanging (Sample.plain (lit "a -> b")) Sample.idle
    = Some (Resolves
              {| isError := true;
                 text := render_failure_message
                           (timeout_message (lit "d2_render compile") 30000);
                 structuredContent := None |}, w')
    /\ clock w' = 30000%N.
Proof. vm_compute. eexists. split; reflexivity. Qed.

Example render_plain_svg :
  exists w',
    d2_render (Sample.quick (lit "<svg>@font-face{a}</svg>"))
              (Sample.plain (lit "a -> b")) Sample.idle
    = Some (Resolves {| isError := false;
                        text := lit "<svg>@font-face{a}</svg>";
                        structuredContent := None |}, w')
    /\ clock w' = 12%N.
Proof. vm_compute. eexists. split; reflexivity. Qed.

Example number_toString_limit :
  number_toString 200001 = lit "200001" /\ number_toString 0 = lit "0".
Proof. split; reflexivity. Qed.

(** A compile of 40 s: [d2_render] gives up at the deadline, while
    [d2_validate] waits for the compiler and reports its verdict. *)
Example slow_compile_render_and_validate :
  (exists w',
      d2_render (Sample.slow 40000 (lit "<svg/>")) (Sample.plain (lit "a -> b"))
                Sample.idle
      = Some (Resolves
                {| isError := true;
                   text := render_failure_message
                             (timeout_message (lit "d2_render compile") 30000);
                   structuredContent := None |}, w')
      /\ clock w' = 30000%N)
  /\ (exists w',
        d2_validate Sample.stringify (Sample.slow 40000 (lit "<svg/>"))
                    (Sample.source_of (lit "a -> b")) Sample.idle
        = Some (Resolves
                  {| isError := false;
                     text := Sample.stringify {| valid := true; error := None |};
                     structuredContent := Some {| valid := true; error := None |} |},
                w')
        /\ clock w' = 40000%N).
Proof. vm_compute. split; eexists; split; reflexivity. Qed.

Example sample_inputs_pass_schemas :
  RenderInputSchema (Sample.plain (lit "a -> b")) = true
  /\ RenderInputSchema (Sample.plain []) = false
  /\ ValidateInputSchema (Sample.source_of (lit "a -> b")) = true
  /\ ValidateInputSchema (Sample.source_of []) = false
  /\ FormatInputSchema (Sample.code_of (lit "a->b")) = true.
Proof. repeat split. Qed.

(* ================================================================== *)
(** * Further properties of the code *)

(* ------------------------------------------------------------------ *)
(** ** The timeout guard *)

(** X1.  For a deadline in setTimeout's range (1 to 2^31-1 ms): when the
    wrapped operation settles only after the deadline, or never, awaiting
    the guard fails at the deadline with the timeout error made of the label
    and the delay, and the guard's timer has run. *)
Theorem withTimeout_deadline_first
        (call T : Type) (p : promise T) (ms : N) (label : jsstring)
        (w : loop call) :
  (1 <= ms)%N -> (ms <= TIMEOUT_MAX)%N ->
  match p with
  | Some (at_, _) => (clock w + ms < at_)%N
  | None => True
  end ->
  exists w',
    await (fst (withTimeout p ms label w)) (snd (withTimeout p ms label w))
    = Some (Rejects (new_Error (timeout_message label ms)), w')
    /\ clock w' = (clock w + ms)%N
    /\ In (TimerFired (guard_timer w ms label)) (trace w')
    /\ ~ In (guard_timer w ms label) (armed w').
Proof.
  intros Hms Hrange Hlate.
  unfold withTimeout, reject_after, race, await. cbn [fst snd due].
  assert (forall w0 : loop call,
             clock w0 = clock w ->
             In (guard_timer w ms label) (armed w0) ->
             clock (advance (clock w + ms) w0) = (clock w + ms)%N
             /\ In (TimerFired (guard_timer w ms label))
                   (trace (advance (clock w + ms) w0))
             /\ ~ In (guard_timer w ms label)
                     (armed (advance (clock w + ms) w0))) as Hfire.
  { intros w0 Hclock Harmed. split.
    - rewrite LoopFacts.advance_clock, Hclock. lia.
    - apply LoopFacts.advance_fires; [exact Harmed|].
      unfold guard_timer. cbn [due]. lia. }
  destruct p as [[at_ r]|].
  - assert ((at_ <? clock w + ms)%N = false) as -> by (apply N.ltb_ge; lia).
    eexists. split; [reflexivity|].
    apply Hfire; [reflexivity|]. cbn [armed].
    apply LoopFacts.In_arm. now left.
  - eexists. split; [reflexivity|].
    apply Hfire; [reflexivity|]. cbn [armed].
    apply LoopFacts.In_arm. now left.
Qed.

Lemma withTimeout_deadline_first_witness :
  (1 <= 30000)%N /\ (30000 <= TIMEOUT_MAX)%N
  /\ (clock Sample.idle + 30000 < 40000)%N
  /\ exists w',
       await (fst (withTimeout (Some (40000%N, Resolves 1%N)) 30000 (lit "op") Sample.idle))
             (snd (withTimeout (Some (40000%N, Resolves 1%N)) 30000 (lit "op") Sample.idle))
       = Some (Rejects (new_Error (timeout_message (lit "op") 30000)), w')
       /\ clock w' = (clock Sample.idle + 30000)%N
       /\ In (TimerFired (guard_timer Sample.idle 30000 (lit "op"))) (trace w')
       /\ ~ In (guard_timer Sample.idle 30000 (lit "op")) (armed w').
Proof.
  split; [vm_compute; discriminate|]. split; [vm_compute; discriminate|].
  split; [reflexivity|].
  apply (@withTimeout_deadline_first _ N (Some (40000%N, Resolves 1%N)) 30000%N
           (lit "op") Sample.idle);
    [vm_compute; discriminate|vm_compute; discriminate|reflexivity].
Defined.


(** The message of a deadline of whole seconds: the label, the seconds and
    the hint. *)
Lemma timeout_message_whole_seconds (label : jsstring) (k : N) :
  timeout_message label (1000 * k)
  = label ++ lit " timed out after " ++ number_toString k ++ lit "s. "
      ++ lit "If you used layout-engine: elk, switch to dagre (or remove the layout setting entirely) "
      ++ [EM_DASH] ++ lit " ELK is extremely slow in WASM.".
Proof.
  unfold timeout_message, seconds_text.
  assert ((1000 * k) mod 1000 = 0)%N as ->
    by (rewrite N.mul_comm; apply N.Div0.mod_mul).
  assert ((1000 * k) / 1000 = k)%N as ->
    by (rewrite N.mul_comm; apply N.div_mul; discriminate).
  reflexivity.
Qed.

(* ------------------------------------------------------------------ *)
(** ** The post-processor, further *)

Module StripMore.

Import RegexFacts StripFacts.

Lemma remove_font_faces_length (s : jsstring) :
  length (remove_font_faces s) <= length s.
Proof.
  unfold remove_font_faces.
  refine (proj1 (@replace_all_length font_face_re [] _ _ (length s) s _));
    rewrite ?font_face_min_len; simpl; lia.
Qed.

Lemma collapse_newlines_shrinks (s : jsstring) :
  has_match newlines3_re s = true ->
  length (collapse_newlines s) < length s.
Proof.
  intros H. unfold collapse_newlines.
  refine (proj2 (@replace_all_length newlines3_re [NL; NL] _ _ (length s) s _) _ H);
    simpl; lia.
Qed.

(** A literal prefix of the pattern takes its own text off the subject. *)
Lemma match_literal (l : jsstring) (pat : pattern) (s : jsstring) :
  match_len (literal l ++ pat) (l ++ s)
  = option_map (Nat.add (length l)) (match_len pat s).
Proof.
  induction l as [|c l IH].
  - cbn [literal map app length]. destruct (match_len pat s); reflexivity.
  - cbn [literal map app length match_len]. fold (literal l).
    unfold unit_eqb at 1. rewrite N.eqb_refl, IH.
    destruct (match_len pat s); reflexivity.
Qed.

Lemma match_one (p : code_unit -> bool) (pat : pattern) (c : code_unit) (s : jsstring) :
  p c = true ->
  match_len (One p :: pat) (c :: s) = option_map S (match_len pat s).
Proof. intros H. change (match_len (One p :: pat) (c :: s))
    with (if p c then option_map S (match_len pat s) else None).
  now rewrite H.
Qed.

(** A greedy class runs over the text that fits it when the rest of the
    pattern matches behind that text. *)
Lemma match_many (p : code_unit -> bool) (pat : pattern) (run rest : jsstring) (n : nat) :
  forallb p run = true ->
  match_len (Many p :: pat) rest = Some n ->
  match_len (Many p :: pat) (run ++ rest) = Some (length run + n).
Proof.
  intros Hrun Hrest. induction run as [|c run IH]; [exact Hrest|].
  cbn [forallb] in Hrun. apply andb_true_iff in Hrun. destruct Hrun as [Hc Hrun].
  cbn [app]. rewrite many_unfold, Hc, (IH Hrun). reflexivity.
Qed.

(** The pattern matches a block at the head of the subject, and takes all
    of it. *)
Lemma font_face_block_match (ws body rest : jsstring) :
  forallb is_space ws = true -> forallb not_brace body = true ->
  match_len font_face_re
            (lit "@font-face" ++ ws ++ LBRACE :: body ++ RBRACE :: rest)
  = Some (10 + (length ws + S (length body + 1))).
Proof.
  intros Hws Hbody. unfold font_face_re.
  rewrite match_literal.
  rewrite (@match_many is_space _ ws (LBRACE :: body ++ RBRACE :: rest)
             (S (length body + 1)) Hws).
  - reflexivity.
  - rewrite many_unfold.
    replace (is_space LBRACE) with false by reflexivity.
    rewrite match_one by reflexivity.
    rewrite (@match_many not_brace _ body (RBRACE :: rest) 1 Hbody);
      reflexivity.
Qed.

(** No block begins at a character other than [@]. *)
Lemma font_face_needs_at (c : code_unit) (s : jsstring) :
  unit_eqb AT_SIGN c = false -> match_len font_face_re (c :: s) = None.
Proof. intros H. unfold font_face_re. cbn [literal lit map app match_len list_ascii_of_string]. 
  change (N_of_ascii "@") with AT_SIGN. now rewrite H.
Qed.

Lemma skipn_over (l rest : jsstring) (k : nat) :
  skipn (length l + k) (l ++ rest) = skipn k rest.
Proof.
  rewrite skipn_app, skipn_all2 by lia.
  replace (length l + k - length l) with k by lia. reflexivity.
Qed.

Lemma remove_font_faces_block (a ws body b : jsstring) :
  forallb (fun c => negb (unit_eqb AT_SIGN c)) a = true ->
  forallb is_space ws = true -> forallb not_brace body = true ->
  remove_font_faces (a ++ lit "@font-face" ++ ws ++ LBRACE :: body ++ RBRACE :: b)
  = a ++ remove_font_faces b.
Proof.
  intros Ha Hws Hbody. unfold remove_font_faces.
  induction a as [|c a IH].
  - cbn [app].
    pose proof (font_face_block_match ws body b Hws Hbody) as Hm.
    remember (lit "@font-face" ++ ws ++ LBRACE :: body ++ RBRACE :: b) as s eqn:Hs.
    assert (exists tail, s = AT_SIGN :: tail
                         /\ skipn (9 + (length ws + S (length body + 1))) tail = b)
      as [tail [Htail Hskip]].
    { subst s.
      exists (lit "font-face" ++ ws ++ LBRACE :: body ++ RBRACE :: b).
      split; [reflexivity|].
      change 9 with (length (lit "font-face")).
      rewrite skipn_over, skipn_over.
      change (S (length body + 1)) with (1 + (length body + 1)).
      change (LBRACE :: body ++ RBRACE :: b)
        with ([LBRACE] ++ body ++ [RBRACE] ++ b).
      change 1 with (length [LBRACE]) at 1.
      rewrite skipn_over, skipn_over.
      reflexivity. }
    rewrite Htail in Hm |- *.
    rewrite replace_all_hit with (n := 9 + (length ws + S (length body + 1)))
      by exact Hm.
    now rewrite Hskip.
  - cbn [forallb] in Ha. apply andb_true_iff in Ha. destruct Ha as [Hc Ha].
    apply negb_true_iff in Hc.
    cbn [app]. rewrite replace_all_miss by now apply font_face_needs_at.
    f_equal. now apply IH.
Qed.

End StripMore.

(** X3.  [stripFontFaces] never lengthens a text, and its result holds no
    run of three newlines. *)
Theorem stripFontFaces_output_bounds (svg : jsstring) :
  length (stripFontFaces svg) <= length svg
  /\ has_match newlines3_re (stripFontFaces svg) = false.
Proof.
  unfold stripFontFaces. split.
  - pose proof (StripFacts.collapse_newlines_length (remove_font_faces svg)).
    pose proof (StripMore.remove_font_faces_length svg). lia.
  - exact (proj1 (@StripFacts.collapse_newlines_spec
                    (length (remove_font_faces svg)) _ (le_n _))).
Qed.

(** X4.  [stripFontFaces] returns a text as it is exactly when the text
    holds neither a font-face block nor a run of three newlines. *)
Theorem stripFontFaces_unchanged_iff (svg : jsstring) :
  stripFontFaces svg = svg
  <-> has_font_face svg = false /\ has_match newlines3_re svg = false.
Proof.
  split.
  - intros Hsame.
    pose proof (StripFacts.collapse_newlines_length (remove_font_faces svg)) as Hc.
    pose proof (StripMore.remove_font_faces_length svg) as Hr.
    assert (has_font_face svg = false) as Hclean.
    { destruct (has_font_face svg) eqn:E; [|reflexivity].
      pose proof (StripFacts.remove_font_faces_shrinks _ E) as Hlt.
      unfold stripFontFaces in Hsame. rewrite Hsame in Hc. lia. }
    split; [exact Hclean|].
    unfold stripFontFaces, remove_font_faces in Hsame.
    rewrite (RegexFacts.replace_all_no_match _ _ _ Hclean) in Hsame.
    destruct (has_match newlines3_re svg) eqn:E; [|reflexivity].
    pose proof (StripMore.collapse_newlines_shrinks _ E) as Hlt.
    rewrite Hsame in Hlt. lia.
  - intros [Hclean Hnl]. unfold stripFontFaces, remove_font_faces.
    rewrite (RegexFacts.replace_all_no_match _ _ _ Hclean).
    unfold collapse_newlines. now apply RegexFacts.replace_all_no_match.
Qed.

Lemma stripFontFaces_unchanged_iff_witness :
  stripFontFaces (lit "<svg><text>a</text></svg>") = lit "<svg><text>a</text></svg>".
Proof.
  apply (proj2 (stripFontFaces_unchanged_iff (lit "<svg><text>a</text></svg>"))).
  split; reflexivity.
Defined.

(** X5.  A font-face block (the keyword, white space, and a brace pair
    without braces inside) is cut out whole: when no [@] stands before it,
    no further block follows it and the text around it has no run of three
    newlines, what is left is the text before and the text behind. *)
Theorem stripFontFaces_removes_block (before ws body behind : jsstring) :
  forallb (fun c => negb (unit_eqb AT_SIGN c)) before = true ->
  forallb is_space ws = true ->
  forallb not_brace body = true ->
  has_font_face behind = false ->
  has_match newlines3_re (before ++ behind) = false ->
  stripFontFaces
    (before ++ lit "@font-face" ++ ws ++ LBRACE :: body ++ RBRACE :: behind)
  = before ++ behind.
Proof.
  intros Hbefore Hws Hbody Hbehind Hnl.
  unfold stripFontFaces.
  rewrite StripMore.remove_font_faces_block by assumption.
  unfold remove_font_faces at 1.
  rewrite (RegexFacts.replace_all_no_match _ _ _ Hbehind).
  unfold collapse_newlines. now apply RegexFacts.replace_all_no_match.
Qed.

Lemma stripFontFaces_removes_block_witness :
  stripFontFaces
    (lit "<style>" ++ lit "@font-face" ++ [32%N; NL]
       ++ LBRACE :: lit "src: url(data:x);" ++ RBRACE :: lit "</style>")
  = lit "<style>" ++ lit "</style>".
Proof.
  apply (@stripFontFaces_removes_block (lit "<style>") [32%N; NL]
           (lit "src: url(data:x);") (lit "</style>")); reflexivity.
Defined.

(** X6.  A second pass of [stripFontFaces] changes the text whenever the
    first pass has left a font-face block. *)
Theorem stripFontFaces_second_pass_differs (x : jsstring) :
  has_font_face (stripFontFaces x) = true ->
  stripFontFaces (stripFontFaces x) <> stripFontFaces x.
Proof. apply StripFacts.strip_twice_differs. Qed.

Lemma stripFontFaces_second_pass_differs_witness :
  has_font_face (stripFontFaces (lit "a@font-@font-face {x}face{y}b")) = true
  /\ stripFontFaces (stripFontFaces (lit "a@font-@font-face {x}face{y}b"))
     <> stripFontFaces (lit "a@font-@font-face {x}face{y}b").
Proof.
  split; [reflexivity|].
  apply stripFontFaces_second_pass_differs. reflexivity.
Defined.

(* ------------------------------------------------------------------ *)
(** ** [d2_render], further *)

Module RenderMore.

Section Runs.

Variables Diagram RenderOptions : Type.

Local Abbreviation call := (@call Diagram RenderOptions).

Lemma calls_of_app (a b : list (event call)) :
  calls_of (a ++ b) = calls_of a ++ calls_of b.
Proof.
  induction a as [|ev a IH]; [reflexivity|].
  destruct ev; cbn [app calls_of]; rewrite IH; reflexivity.
Qed.

Lemma calls_of_fired (l : list timer) :
  calls_of (map (@TimerFired call) l) = [].
Proof. induction l; simpl; auto. Qed.

Lemma extends_trans (w1 w2 w3 : loop call) (c1 c2 : list call) :
  extends w1 w2 c1 -> extends w2 w3 c2 -> extends w1 w3 (c1 ++ c2).
Proof.
  intros [e1 [H1 C1]] [e2 [H2 C2]]. exists (e1 ++ e2). split.
  - now rewrite H2, H1, app_assoc.
  - now rewrite calls_of_app, C1, C2.
Qed.

(** One guarded await records its call and no other. *)
Lemma extends_guarded (w : loop call) (c : call) (ms now : N) (label : jsstring) :
  extends w (advance now (after_arming w c ms label)) [c].
Proof.
  eexists. split.
  - unfold advance, after_arming. cbn [trace armed clock].
    rewrite <- !app_assoc. reflexivity.
  - cbn [app calls_of]. now rewrite calls_of_fired.
Qed.

Lemma extends_added (w w' : loop call) (cs : list call) :
  extends w w' cs -> calls_of (added w w') = cs.
Proof.
  intros [evs [H C]]. now rewrite (@TraceFacts.added_app _ _ w w' evs H).
Qed.

Lemma clock_guarded (w : loop call) (c : call) (ms now : N) (label : jsstring) :
  clock (advance now (after_arming w c ms label)) = N.max now (clock w).
Proof. reflexivity. Qed.

End Runs.

End RenderMore.

(** X7.  [d2_render] always returns a result, never a rejection, and it
    returns no later than two deadlines (60,000 ms) after it was called,
    whatever the compiler and the renderer do. *)
Theorem render_settles_within_two_deadlines
        (Diagram RenderOptions : Type) (d2 : D2 Diagram RenderOptions)
        (params : RenderInput) (w : loop (@call Diagram RenderOptions)) :
  exists r w',
    d2_render d2 params w = Some (Resolves r, w')
    /\ (clock w <= clock w' <= clock w + 60000)%N.
Proof.
  unfold d2_render, try_catch.
  rewrite LoopFacts.guarded_step. cbv zeta.
  unfold guard_timer. cbn [due rejection].
  destruct (compile d2 _ _) as [[d [v|e]]|].
  - destruct (N.ltb_spec d RENDER_TIMEOUT_MS) as [Hd|Hd].
    + rewrite LoopFacts.guarded_step. cbv zeta.
      unfold guard_timer. cbn [due rejection].
      destruct (render d2 _ _) as [[d' [svg|e]]|].
      * destruct (N.ltb_spec d' RENDER_TIMEOUT_MS) as [Hd'|Hd'].
        -- unfold ret. destruct (CHARACTER_LIMIT <? _)%N;
             do 2 eexists; (split; [reflexivity|]);
             rewrite !RenderMore.clock_guarded;
             unfold RENDER_TIMEOUT_MS in *; lia.
        -- do 2 eexists; (split; [reflexivity|]).
           rewrite !RenderMore.clock_guarded.
           unfold RENDER_TIMEOUT_MS in *; lia.
      * destruct (N.ltb_spec d' RENDER_TIMEOUT_MS) as [Hd'|Hd'];
          do 2 eexists; (split; [reflexivity|]);
          rewrite !RenderMore.clock_guarded;
          unfold RENDER_TIMEOUT_MS in *; lia.
      * do 2 eexists; (split; [reflexivity|]).
        rewrite !RenderMore.clock_guarded.
        unfold RENDER_TIMEOUT_MS in *; lia.
    + do 2 eexists; (split; [reflexivity|]).
      rewrite !RenderMore.clock_guarded.
      unfold RENDER_TIMEOUT_MS in *; lia.
  - destruct (N.ltb_spec d RENDER_TIMEOUT_MS) as [Hd|Hd];
      do 2 eexists; (split; [reflexivity|]);
      rewrite !RenderMore.clock_guarded;
      unfold RENDER_TIMEOUT_MS in *; lia.
  - do 2 eexists; (split; [reflexivity|]).
    rewrite !RenderMore.clock_guarded.
    unfold RENDER_TIMEOUT_MS in *; lia.
Qed.





(** X10.  When both phases succeed in time and the text fits the limit,
    [d2_render] returns it as a plain result: the renderer's own text unless
    [skip_fonts] is true, and the stripped text then.  The renderer is called
    once, with the diagram and the render options of the compile result. *)
Theorem render_returns_output
        (Diagram RenderOptions : Type) (d2 : D2 Diagram RenderOptions)
        (params : RenderInput) (w : loop (@call Diagram RenderOptions))
        (dc dr : N) (result : CompileResponse Diagram RenderOptions)
        (svg : jsstring) :
  compile d2 (d2_code params) (Some {| options := compileOptions_of params |})
    = Some (dc, Resolves result) ->
  (dc < RENDER_TIMEOUT_MS)%N ->
  render d2 (diagram result) (renderOptions result) = Some (dr, Resolves svg) ->
  (dr < RENDER_TIMEOUT_MS)%N ->
  (js_length (postprocess params svg) <= CHARACTER_LIMIT)%N ->
  exists w',
    d2_render d2 params w
    = Some (Resolves {| isError := false;
                        text := match skip_fonts params with
                                | Some true => stripFontFaces svg
                                | _ => svg
                                end;
                        structuredContent := None |}, w')
    /\ clock w' = (clock w + dc + dr)%N
    /\ calls_of (added w w')
       = [CompileCall (d2_code params) (Some {| options := compileOptions_of params |});
          RenderCall (diagram result) (renderOptions result)].
Proof.
  intros Hc Hdc Hr Hdr Hfits.
  apply N.ltb_lt in Hdc as Hdc'. apply N.ltb_lt in Hdr as Hdr'.
  apply N.ltb_ge in Hfits.
  unfold d2_render, try_catch.
  rewrite LoopFacts.guarded_step. cbv zeta. rewrite Hc, Hdc'.
  rewrite LoopFacts.guarded_step. cbv zeta. rewrite Hr, Hdr'.
  rewrite Hfits. unfold ret.
  eexists. split.
  - unfold postprocess, truthy_flag.
    destruct (skip_fonts params) as [[|]|]; reflexivity.
  - split.
    + rewrite !RenderMore.clock_guarded. lia.
    + apply RenderMore.extends_added.
      eapply (@RenderMore.extends_trans _ _ _ _ _ [_] [_]);
        apply RenderMore.extends_guarded.
Qed.

Lemma render_returns_output_witness :
  exists w',
    d2_render (Sample.quick (lit "<svg>@font-face{a}</svg>"))
              (Sample.plain (lit "a -> b")) Sample.idle
    = Some (Resolves {| isError := false;
                        text := lit "<svg>@font-face{a}</svg>";
                        structuredContent := None |}, w')
    /\ clock w' = (clock Sample.idle + 5 + 7)%N
    /\ calls_of (added Sample.idle w')
       = [CompileCall (lit "a -> b")
            (Some {| options := compileOptions_of (Sample.plain (lit "a -> b")) |});
          RenderCall tt tt].
Proof.
  apply (@render_returns_output unit unit
           (Sample.quick (lit "<svg>@font-face{a}</svg>"))
           (Sample.plain (lit "a -> b")) Sample.idle 5%N 7%N
           Sample.compiled (lit "<svg>@font-face{a}</svg>"));
    [reflexivity|reflexivity|reflexivity|reflexivity|].
  vm_compute. discriminate.
Defined.

(** X11.  The size check looks at the text after the stripping: a drawing
    that is over the limit as rendered and within it once stripped is
    returned (stripped) with [skip_fonts: true], and refused with the
    size-limit error without the flag. *)
Theorem skip_fonts_brings_under_limit
        (Diagram RenderOptions : Type) (d2 : D2 Diagram RenderOptions)
        (params : RenderInput) (w : loop (@call Diagram RenderOptions))
        (dc dr : N) (result : CompileResponse Diagram RenderOptions)
        (svg : jsstring) :
  compile d2 (d2_code params) (Some {| options := compileOptions_of params |})
    = Some (dc, Resolves result) ->
  (dc < RENDER_TIMEOUT_MS)%N ->
  render d2 (diagram result) (renderOptions result) = Some (dr, Resolves svg) ->
  (dr < RENDER_TIMEOUT_MS)%N ->
  (CHARACTER_LIMIT < js_length svg)%N ->
  (js_length (stripFontFaces svg) <= CHARACTER_LIMIT)%N ->
  (exists w',
      d2_render d2 (set_skip_fonts params (Some true)) w
      = Some (Resolves {| isError := false;
                          text := stripFontFaces svg;
                          structuredContent := None |}, w'))
  /\ (exists w',
        d2_render d2 (set_skip_fonts params None) w
        = Some (Resolves {| isError := true;
                            text := size_limit_message (js_length svg);
                            structuredContent := None |}, w')).
Proof.
  intros Hc Hdc Hr Hdr Hover Hfits.
  split.
  - destruct (@RenderFacts.d2_render_rendered _ _ d2
                (set_skip_fonts params (Some true)) w dc dr result svg
                Hc Hdc Hr Hdr) as [w' Hrun].
    exists w'. rewrite Hrun.
    change (postprocess (set_skip_fonts params (Some true)) svg)
      with (stripFontFaces svg).
    apply N.ltb_ge in Hfits. now rewrite Hfits.
  - destruct (@RenderFacts.d2_render_rendered _ _ d2
                (set_skip_fonts params None) w dc dr result svg
                Hc Hdc Hr Hdr) as [w' Hrun].
    exists w'. rewrite Hrun.
    change (postprocess (set_skip_fonts params None) svg) with svg.
    apply N.ltb_lt in Hover. now rewrite Hover.
Qed.

Lemma heavy_svg_sizes :
  (CHARACTER_LIMIT < js_length Fixture.heavy_svg)%N
  /\ (js_length (stripFontFaces Fixture.heavy_svg) <= CHARACTER_LIMIT)%N.
Proof. split; vm_compute; congruence. Qed.

Lemma skip_fonts_brings_under_limit_witness :
  (exists w',
      d2_render (Sample.quick Fixture.heavy_svg)
                (set_skip_fonts (Sample.plain (lit "a -> b")) (Some true)) Sample.idle
      = Some (Resolves {| isError := false;
                          text := stripFontFaces Fixture.heavy_svg;
                          structuredContent := None |}, w'))
  /\ (exists w',
        d2_render (Sample.quick Fixture.heavy_svg)
                  (set_skip_fonts (Sample.plain (lit "a -> b")) None) Sample.idle
        = Some (Resolves {| isError := true;
                            text := size_limit_message (js_length Fixture.heavy_svg);
                            structuredContent := None |}, w')).
Proof.
  apply (@skip_fonts_brings_under_limit unit unit (Sample.quick Fixture.heavy_svg)
           (Sample.plain (lit "a -> b")) Sample.idle 5%N 7%N Sample.compiled
           Fixture.heavy_svg);
    [reflexivity|reflexivity|reflexivity|reflexivity| |].
  - exact (proj1 heavy_svg_sizes).
  - exact (proj2 heavy_svg_sizes).
Defined.

(* ------------------------------------------------------------------ *)
(** ** [runD2Binary] and [d2_format], further *)

(** X12.  When the child closes with status 0, [d2_format] returns what the
    child wrote to its output stream: the chunks in order, untrimmed, and
    nothing of the error stream.  The child is the executable named by
    [D2_PATH], or [d2] when the variable is unset or empty, run as
    [fmt -] on the source. *)
Theorem format_returns_stdout
        (Diagram RenderOptions : Type) (D2_PATH : option jsstring)
        (spawn : jsstring -> list jsstring -> jsstring -> option (N * child_event))
        (params : Format.FormatInput) (w : loop (@call Diagram RenderOptions))
        (d : N) (out_chunks err_chunks : list jsstring) :
  let path := match D2_PATH with
              | Some (c :: p) => c :: p
              | _ => lit "d2"
              end in
  spawn path [lit "fmt"; lit "-"] (Format.d2_code params)
    = Some (d, ChildClose out_chunks err_chunks (Some 0%Z)) ->
  exists w',
    d2_format D2_PATH spawn params w
    = Some (Resolves {| isError := false;
                        text := concat out_chunks;
                        structuredContent := None |}, w')
    /\ clock w' = (clock w + d)%N
    /\ calls_of (added w w')
       = [SpawnCall path [lit "fmt"; lit "-"] (Format.d2_code params)].
Proof.
  intros path Hspawn.
  assert (js_or (match D2_PATH with Some v => v | None => [] end) (lit "d2") = path)
    as Hpath by (unfold path; destruct D2_PATH as [[|c p]|]; reflexivity).
  unfold d2_format, try_catch, bind, lift, runD2Binary, start, await, ret.
  rewrite Hpath, Hspawn.
  cbn [option_map fst snd on_child_event exitCode stdout Z.eqb negb].
  eexists. split; [reflexivity|]. split.
  - rewrite LoopFacts.advance_clock. cbn [clock]. lia.
  - apply RenderMore.extends_added. eexists. split.
    + unfold advance. cbn [trace armed clock]. rewrite <- app_assoc. reflexivity.
    + cbn [app calls_of]. now rewrite RenderMore.calls_of_fired.
Qed.

Lemma format_returns_stdout_witness :
  exists w',
    @d2_format unit unit (Some [])
               (Sample.child [lit "a -> "; lit "b" ++ [NL]] [lit "warning"] (Some 0%Z))
               (Sample.code_of (lit "a->b")) Sample.idle
    = Some (Resolves {| isError := false;
                        text := concat [lit "a -> "; lit "b" ++ [NL]];
                        structuredContent := None |}, w')
    /\ clock w' = (clock Sample.idle + 9)%N
    /\ calls_of (added Sample.idle w')
       = [SpawnCall (lit "d2") [lit "fmt"; lit "-"]
                    (Format.d2_code (Sample.code_of (lit "a->b")))].
Proof.
  apply (@format_returns_stdout unit unit (Some [])
           (Sample.child [lit "a -> "; lit "b" ++ [NL]] [lit "warning"] (Some 0%Z))
           (Sample.code_of (lit "a->b")) Sample.idle 9%N
           [lit "a -> "; lit "b" ++ [NL]] [lit "warning"]).
  reflexivity.
Defined.

(** X13.  [d2_format] never settles with a rejection.  On the child's
    close event or error event it returns a result, at that time; while the
    child emits nothing it keeps waiting.  On the one event the source does
    not listen to, the error of [child.stdin], it returns nothing: the
    error is uncaught and ends the process. *)
Theorem format_never_rejects
        (Diagram RenderOptions : Type) (D2_PATH : option jsstring)
        (spawn : jsstring -> list jsstring -> jsstring -> option (N * child_event))
        (params : Format.FormatInput) (w : loop (@call Diagram RenderOptions)) :
  let path := js_or (match D2_PATH with Some v => v | None => [] end) (lit "d2") in
  (forall e w', d2_format D2_PATH spawn params w <> Some (Rejects e, w'))
  /\ match spawn path [lit "fmt"; lit "-"] (Format.d2_code params) with
     | Some (d, StdinError err) =>
         d2_format D2_PATH spawn params w = None
         /\ format_call D2_PATH spawn params w = ProcessEnded err
     | Some (d, _) =>
         exists r w',
           d2_format D2_PATH spawn params w = Some (Resolves r, w')
           /\ clock w' = (clock w + d)%N
           /\ format_call D2_PATH spawn params w = Settled (Resolves r)
     | None =>
         d2_format D2_PATH spawn params w = None
         /\ format_call D2_PATH spawn params w = Waiting
     end.
Proof.
  intros path.
  unfold format_call.
  unfold d2_format, try_catch, bind, lift, runD2Binary, start, await, ret.
  fold path.
  destruct (spawn path _ _) as [[d ev]|]; [|split; [discriminate|split; reflexivity]].
  cbn [option_map fst snd].
  destruct ev as [err|outs errs status|err]; cbn [on_child_event uncaught option_map].
  - destruct (is_ENOENT err); cbn [option_map fst snd];
      (split; [discriminate|]);
      do 2 eexists; (split; [reflexivity|]);
      (split; [rewrite LoopFacts.advance_clock; cbn [clock]; lia|reflexivity]).
  - cbn [option_map fst snd exitCode].
    destruct (negb _);
      (split; [discriminate|]);
      do 2 eexists; (split; [reflexivity|]);
      (split; [rewrite LoopFacts.advance_clock; cbn [clock]; lia|reflexivity]).
  - split; [discriminate|]. split; reflexivity.
Qed.

(** X14.  A launch failure becomes an error result whose text is [Error: ]
    followed by the install hint for a missing executable, and by the
    message of the child's error for every other failure. *)
Theorem format_reports_launch_failure
        (Diagram RenderOptions : Type) (D2_PATH : option jsstring)
        (spawn : jsstring -> list jsstring -> jsstring -> option (N * child_event))
        (params : Format.FormatInput) (w : loop (@call Diagram RenderOptions))
        (d : N) (err : ErrorObject) :
  spawn (js_or (match D2_PATH with Some v => v | None => [] end) (lit "d2"))
        [lit "fmt"; lit "-"] (Format.d2_code params) = Some (d, ChildError err) ->
  exists w',
    d2_format D2_PATH spawn params w
    = Some (Resolves
              {| isError := true;
                 text := lit "Error: "
                           ++ match code err with
                              | Some c => if str_eqb c (lit "ENOENT")
                                          then binary_not_found else message err
                              | None => message err
                              end;
                 structuredContent := None |}, w').
Proof.
  intros Hspawn.
  unfold d2_format, try_catch, bind, lift, runD2Binary, start, await, ret.
  rewrite Hspawn. cbn [option_map fst snd on_child_event].
  unfold is_ENOENT.
  destruct (code err) as [c|]; [destruct (str_eqb c (lit "ENOENT"))|];
    eexists; reflexivity.
Qed.

Lemma format_reports_launch_failure_witness :
  exists w',
    @d2_format unit unit None (Sample.no_child Sample.EACCES)
               (Sample.code_of (lit "a->b")) Sample.idle
    = Some (Resolves
              {| isError := true;
                 text := lit "Error: "
                           ++ match code Sample.EACCES with
                              | Some c => if str_eqb c (lit "ENOENT")
                                          then binary_not_found
                                          else message Sample.EACCES
                              | None => message Sample.EACCES
                              end;
                 structuredContent := None |}, w').
Proof.
  apply (@format_reports_launch_failure unit unit None
           (Sample.no_child Sample.EACCES) (Sample.code_of (lit "a->b"))
           Sample.idle 1%N Sample.EACCES).
  reflexivity.
Defined.

(** X15.  An error stream that holds white space only still takes
    precedence over the output stream: after a non-zero exit the text is the
    bare prefix, whatever the child wrote to its output. *)
Theorem format_blank_stderr_hides_stdout
        (Diagram RenderOptions : Type) (D2_PATH : option jsstring)
        (spawn : jsstring -> list jsstring -> jsstring -> option (N * child_event))
        (params : Format.FormatInput) (w : loop (@call Diagram RenderOptions))
        (d : N) (out_chunks err_chunks : list jsstring) (status : option Z) :
  spawn (js_or (match D2_PATH with Some v => v | None => [] end) (lit "d2"))
        [lit "fmt"; lit "-"] (Format.d2_code params)
    = Some (d, ChildClose out_chunks err_chunks status) ->
  status <> Some 0%Z ->
  concat err_chunks <> [] ->
  forallb is_space (concat err_chunks) = true ->
  exists w',
    d2_format D2_PATH spawn params w
    = Some (Resolves {| isError := true;
                        text := lit "Error formatting D2 code: ";
                        structuredContent := None |}, w').
Proof.
  intros Hspawn Hstatus Hsome Hblank.
  unfold d2_format, try_catch, bind, lift, runD2Binary, start, await, ret.
  rewrite Hspawn. cbn [option_map fst snd on_child_event exitCode stderr stdout].
  assert ((match status with Some c => c | None => 1%Z end =? 0)%Z = false) as ->.
  { destruct status as [c|]; [|reflexivity].
    apply Z.eqb_neq. congruence. }
  cbn [negb].
  assert (js_or (js_or (concat err_chunks) (concat out_chunks)) (lit "Unknown error")
          = concat err_chunks) as ->.
  { unfold js_or. destruct (concat err_chunks); [congruence|reflexivity]. }
  rewrite (FormatFacts.trim_blank _ Hblank), app_nil_r.
  eexists. reflexivity.
Qed.

Lemma format_blank_stderr_hides_stdout_witness :
  exists w',
    @d2_format unit unit None
               (Sample.child [lit "1:5: unexpected text"] [[NL]] (Some 1%Z))
               (Sample.code_of (lit "a -> {")) Sample.idle
    = Some (Resolves {| isError := true;
                        text := lit "Error formatting D2 code: ";
                        structuredContent := None |}, w').
Proof.
  apply (@format_blank_stderr_hides_stdout unit unit None
           (Sample.child [lit "1:5: unexpected text"] [[NL]] (Some 1%Z))
           (Sample.code_of (lit "a -> {")) Sample.idle 9%N
           [lit "1:5: unexpected text"] [[NL]] (Some 1%Z));
    [reflexivity|discriminate|discriminate|reflexivity].
Defined.

(* ------------------------------------------------------------------ *)
(** ** The shared instance *)

Module InstanceFacts.

Lemma getD2_times_reuses (Diagram RenderOptions : Type)
      (make : nat -> D2 Diagram RenderOptions) (d2 : D2 Diagram RenderOptions)
      (k n : nat) :
  getD2_times make n {| d2Instance := Some d2; constructed := k |}
  = (repeat d2 n, {| d2Instance := Some d2; constructed := k |}).
Proof.
  induction n as [|n IH]; [reflexivity|].
  cbn [getD2_times getD2 d2Instance]. rewrite IH. reflexivity.
Qed.

End InstanceFacts.

(** X16.  However often [getD2()] is called, [new D2()] is evaluated once,
    at the first call, and every call returns that one instance. *)
Theorem getD2_constructs_once
        (Diagram RenderOptions : Type) (make : nat -> D2 Diagram RenderOptions)
        (n : nat) :
  getD2_times make (S n) no_instance
  = (repeat (make 0) (S n),
     {| d2Instance := Some (make 0); constructed := 1 |}).
Proof.
  cbn [getD2_times getD2 no_instance d2Instance constructed].
  rewrite InstanceFacts.getD2_times_reuses. reflexivity.
Qed.

(* ------------------------------------------------------------------ *)
(** ** Start-up *)

(** X17.  When the transport cannot be connected, the process writes the
    server error and exits with status 1, and no compile is ever started. *)
Theorem launch_connect_failure
        (Diagram RenderOptions : Type) (d2 : D2 Diagram RenderOptions)
        (w : loop (@call Diagram RenderOptions)) (d : N) (error : thrown) :
  exists w',
    launch (Some (d, Rejects error)) d2 w
    = Some (Exited 1 [ServerError error], w')
    /\ calls_of (added w w') = [].
Proof.
  unfold launch, main, bind, lift, connecting, await.
  cbn [option_map fst snd].
  eexists. split; [reflexivity|].
  apply RenderMore.extends_added. eexists. split; [reflexivity|].
  apply RenderMore.calls_of_fired.
Qed.

(** X18.  Once the transport is connected, [main] returns at that very
    moment, whatever the compiler does afterwards: it has written the
    running line, and it has started the two warm-up compiles of [_warmup],
    one per layout engine, without awaiting them and without a deadline. *)
Theorem launch_serves_before_warm_up
        (Diagram RenderOptions : Type) (d2 : D2 Diagram RenderOptions)
        (w : loop (@call Diagram RenderOptions)) (d : N) :
  exists w',
    launch (Some (d, Resolves tt)) d2 w
    = Some (Serving [Running] (fst (warm_up d2 (advance (clock w + d) w))), w')
    /\ clock w' = (clock w + d)%N
    /\ calls_of (added w w')
       = [CompileCall (lit "_warmup") (layout_only DAGRE);
          CompileCall (lit "_warmup") (layout_only ELK)]
    /\ existsb (@is_TimerSet _ _) (added w w') = false.
Proof.
  unfold launch, main, bind, lift, connecting, await, ret.
  cbn [option_map fst snd].
  unfold warm_up, start. cbn [fst snd].
  eexists. split; [reflexivity|].
  split; [cbn [advance clock]; lia|].
  assert (forall evs,
             added w {| clock := N.max (clock w + d) (clock w);
                        armed := evs;
                        trace := (trace (advance (clock w + d) w)
                                    ++ [Called (CompileCall (lit "_warmup") (layout_only DAGRE))])
                                   ++ [Called (CompileCall (lit "_warmup") (layout_only ELK))] |}
             = map TimerFired (filter (is_due (N.max (clock w + d) (clock w))) (armed w))
                 ++ [Called (CompileCall (lit "_warmup") (layout_only DAGRE));
                     Called (CompileCall (lit "_warmup") (layout_only ELK))]) as Hadded.
  { intros evs. apply TraceFacts.added_app. cbn [trace advance].
    rewrite <- !app_assoc. reflexivity. }
  cbn [advance clock armed trace] in *.
  rewrite Hadded. split.
  - rewrite RenderMore.calls_of_app, RenderMore.calls_of_fired. reflexivity.
  - rewrite existsb_app, TraceFacts.existsb_fired. reflexivity.
Qed.

(** X19.  The warm-up never fails the process.  Its promise is never
    rejected: it writes the warmed-up line when both compiles succeed, at
    the later of the two, and the warm-up error as soon as one compile
    fails, unless the other has failed before. *)
Theorem warm_up_never_rejects
        (Diagram RenderOptions : Type) (d2 : D2 Diagram RenderOptions)
        (w : loop (@call Diagram RenderOptions)) :
  (forall t e, fst (warm_up d2 w) <> Some (t, Rejects e))
  /\ (forall da ra de re,
        compile d2 (lit "_warmup") (layout_only DAGRE) = Some (da, Resolves ra) ->
        compile d2 (lit "_warmup") (layout_only ELK) = Some (de, Resolves re) ->
        fst (warm_up d2 w) = Some ((clock w + N.max da de)%N, Resolves WarmedUp))
  /\ (forall da err,
        compile d2 (lit "_warmup") (layout_only DAGRE) = Some (da, Rejects err) ->
        match compile d2 (lit "_warmup") (layout_only ELK) with
        | Some (de, Rejects _) => (da < de)%N
        | _ => True
        end ->
        fst (warm_up d2 w) = Some ((clock w + da)%N, Resolves (WarmupError err)))
  /\ (forall de err,
        compile d2 (lit "_warmup") (layout_only ELK) = Some (de, Rejects err) ->
        match compile d2 (lit "_warmup") (layout_only DAGRE) with
        | Some (da, Rejects _) => (de < da)%N
        | _ => True
        end ->
        fst (warm_up d2 w) = Some ((clock w + de)%N, Resolves (WarmupError err))).
Proof.
  unfold warm_up, start. cbn [fst snd clock].
  split; [|split; [|split]].
  - intros t e.
    destruct (compile d2 _ (layout_only DAGRE)) as [[da [ra|ea]]|];
      destruct (compile d2 _ (layout_only ELK)) as [[de [re|ee]]|];
      cbn [option_map fst snd Promise_all then_catch_log];
      try discriminate.
    destruct (_ <? _)%N; discriminate.
  - intros da ra de re -> ->.
    cbn [option_map fst snd Promise_all then_catch_log].
    f_equal. f_equal. lia.
  - intros da err ->.
    destruct (compile d2 _ (layout_only ELK)) as [[de [re|ee]]|]; intros Hfirst;
      cbn [option_map fst snd Promise_all then_catch_log]; try reflexivity.
    assert ((clock w + de <? clock w + da)%N = false) as ->
        by (apply N.ltb_ge; lia).
    reflexivity.
  - intros de err ->.
    destruct (compile d2 _ (layout_only DAGRE)) as [[da [ra|ea]]|]; intros Hfirst;
      cbn [option_map fst snd Promise_all then_catch_log]; try reflexivity.
    assert ((clock w + de <? clock w + da)%N = true) as ->
        by (apply N.ltb_lt; lia).
    reflexivity.
Qed.

Lemma warm_up_never_rejects_witness :
  fst (warm_up (Sample.quick (lit "<svg/>")) Sample.idle)
  = Some ((clock Sample.idle + N.max 5 5)%N, Resolves WarmedUp)
  /\ fst (warm_up (Fixture.elk_fails (lit "elk: out of memory")) Sample.idle)
     = Some ((clock Sample.idle + 8)%N,
             Resolves (WarmupError (new_Error (lit "elk: out of memory")))).
Proof.
  split.
  - apply (proj1 (proj2 (warm_up_never_rejects (Sample.quick (lit "<svg/>"))
                           Sample.idle))
                 5%N Sample.compiled 5%N Sample.compiled); reflexivity.
  - apply (proj2 (proj2 (proj2 (warm_up_never_rejects
                                  (Fixture.elk_fails (lit "elk: out of memory"))
                                  Sample.idle)))
                 8%N (new_Error (lit "elk: out of memory")));
      [reflexivity|exact I].
Defined.

(** A warm-up compile that never settles keeps the warm-up pending for
    good, while the server is serving all the same. *)
Example launch_with_hanging_warm_up :
  exists w',
    launch (Some (3%N, Resolves tt)) Sample.hanging Sample.idle
    = Some (Serving [Running] None, w')
    /\ clock w' = 3%N.
Proof. vm_compute. eexists. split; reflexivity. Qed.

(* ------------------------------------------------------------------ *)
(** ** The catalogs *)

(** X20.  No theme id occurs twice in the catalog, over the light and the
    dark group together: an id given as [theme_id] names one theme at
    most. *)
Theorem theme_ids_unique :
  NoDup (map id (light THEMES ++ dark THEMES)).
Proof.
  cbn [THEMES light dark map app id].
  repeat (constructor; [cbn [In]; intros H;
                        repeat (destruct H as [H|H]; [discriminate H|]);
                        exact H|]).
  constructor.
Qed.

(** X21.  The layout engines that [d2_list_layouts] lists are the members
    of the [Layout] enum that [d2_render] accepts, by the same names: every
    listed name is a valid [layout], and every valid [layout] is listed. *)
Theorem listed_layouts_are_the_enum :
  map layout_name LAYOUTS = map Layout_value [DAGRE; ELK]
  /\ (forall l, Layout_parse (Layout_value l) = Some l)
  /\ (forall s l, Layout_parse s = Some l ->
                  s = Layout_value l /\ In s (map layout_name LAYOUTS)).
Proof.
  split; [reflexivity|]. split.
  - intros []; reflexivity.
  - intros s l. unfold Layout_parse.
    destruct (str_eqb s (lit "dagre")) eqn:Ed.
    + apply JsFacts.str_eqb_eq in Ed. intros H. injection H as <-.
      subst s. split; [reflexivity|]. left. reflexivity.
    + destruct (str_eqb s (lit "elk")) eqn:Ee; [|discriminate].
      apply JsFacts.str_eqb_eq in Ee. intros H. injection H as <-.
      subst s. split; [reflexivity|]. right. left. reflexivity.
Qed.
